(** * NIMA result pipeline: parser, statistics, result store, renderer

    A shallow embedding of [parse_results.py], [visualize_results.py] and the
    record writer of [predict_script.py], with the properties of the
    extraction / statistics / reporting pipeline stated over it.

    Conventions of the model.
    - Text is a [string] of 8-bit characters.  The character classes [\w],
      [\d] and [\s] are those of Python's [re] on the ASCII range; codes
      above 127 belong to no class and are left alone by [lower].
    - A Python [float] is modelled by the exact rational it denotes: decimal
      literals are read exactly and [+], [*], [/] are exact.  Only the square
      root of the standard deviation lives in the reals.  Statements over
      this model are statements in exact arithmetic.
    - The module [Binary64] models the two statistics as the code computes
      them, in IEEE 754 binary64 with round-to-nearest-even, overflow to
      infinity and NaN; statements about overflow and NaN are made there.
    - An uncaught Python exception is the [Err] branch of [result]. *)

From Stdlib Require Import Bool Arith List Lia ZArith.
From Stdlib Require Import Ascii String.
From Stdlib Require Import QArith Qabs.
From Stdlib Require Import Reals Lra Lqa.
From Stdlib Require SpecFloat.
Import ListNotations.

Local Open Scope string_scope.
Local Open Scope list_scope.

(** ** Exceptions and the error monad *)

Inductive exn : Type :=
| ValueError               (* float() on a token that is not a number;
                              numpy operands that cannot be broadcast *)
| KeyError (key : string)  (* data[key] on a dict without that key *)
| TypeError                (* subscripting a non-dict, unhashable dict key *)
| JSONDecodeError          (* json.load on text that is not JSON *)
| UnicodeDecodeError       (* reading a file whose bytes are not UTF-8 text *)
| IsADirectoryError        (* open() on a directory *)
| FileNotFoundError        (* Image.open on a path that names no file *)
| UnidentifiedImageError.  (* Image.open on a file that is not a picture *)

Inductive result (A : Type) : Type :=
| Ok (a : A)
| Err (e : exn).
Arguments Ok {A} a.
Arguments Err {A} e.

Definition bind {A B : Type} (r : result A) (k : A -> result B) : result B :=
  match r with
  | Ok a => k a
  | Err e => Err e
  end.

Notation "x <- r ;; k" := (bind r (fun x => k))
  (at level 61, r at next level, right associativity).

(** [[f(x) for x in xs]]: the first exception aborts the comprehension. *)
Fixpoint mapM {A B : Type} (f : A -> result B) (xs : list A) : result (list B) :=
  match xs with
  | [] => Ok []
  | x :: xs' => y <- f x ;; ys <- mapM f xs' ;; Ok (y :: ys)
  end.

(** [for x in xs: st = body(st, x)], aborted by the first exception. *)
Fixpoint foldM {S A : Type} (body : S -> A -> result S) (st : S) (xs : list A)
  : result S :=
  match xs with
  | [] => Ok st
  | x :: xs' => st' <- body st x ;; foldM body st' xs'
  end.

(** ** Characters and strings, as Python sees them *)

Definition code (c : ascii) : nat := nat_of_ascii c.

Definition in_range (lo hi : nat) (c : ascii) : bool :=
  Nat.leb lo (code c) && Nat.leb (code c) hi.

(** [\d] *)
Definition is_digit (c : ascii) : bool := in_range 48 57 c.
Definition is_upper (c : ascii) : bool := in_range 65 90 c.
Definition is_lower (c : ascii) : bool := in_range 97 122 c.

(** [\w]: letters, digits and the underscore. *)
Definition is_word (c : ascii) : bool :=
  is_digit c || is_upper c || is_lower c || Nat.eqb (code c) 95.

(** [\s], and the characters [str.strip()] removes: TAB LF VT FF CR,
    the separators FS GS RS US, and the space. *)
Definition is_space (c : ascii) : bool :=
  in_range 9 13 c || in_range 28 31 c || Nat.eqb (code c) 32.

(** The white space [float()] itself skips around a literal: TAB LF VT FF CR
    and the space. *)
Definition is_c_space (c : ascii) : bool :=
  in_range 9 13 c || Nat.eqb (code c) 32.

Definition lower_char (c : ascii) : ascii :=
  if is_upper c then ascii_of_nat (code c + 32) else c.

(** [s.lower()] *)
Fixpoint lower (s : string) : string :=
  match s with
  | EmptyString => EmptyString
  | String c s' => String (lower_char c) (lower s')
  end.

Fixpoint forall_chars (p : ascii -> bool) (s : string) : bool :=
  match s with
  | EmptyString => true
  | String c s' => p c && forall_chars p s'
  end.

(** [s.split(sep)] for a one-character separator: never an empty list. *)
Fixpoint str_split (sep : ascii) (s : string) : list string :=
  match s with
  | EmptyString => [EmptyString]
  | String c s' =>
      if Ascii.eqb c sep then EmptyString :: str_split sep s'
      else match str_split sep s' with
           | [] => [String c EmptyString]
           | w :: ws => String c w :: ws
           end
  end.

(** [sep.join(parts)] *)
Fixpoint str_join (sep : ascii) (parts : list string) : string :=
  match parts with
  | [] => EmptyString
  | [p] => p
  | p :: ps => p ++ String sep (str_join sep ps)
  end.

Fixpoint lstrip (space : ascii -> bool) (s : string) : string :=
  match s with
  | EmptyString => EmptyString
  | String c s' => if space c then lstrip space s' else s
  end.

Fixpoint rstrip (space : ascii -> bool) (s : string) : string :=
  match s with
  | EmptyString => EmptyString
  | String c s' =>
      match rstrip space s' with
      | EmptyString => if space c then EmptyString else String c EmptyString
      | r => String c r
      end
  end.

(** [s.strip()] *)
Definition strip (s : string) : string := rstrip is_space (lstrip is_space s).

(** The rest of [s] after the literal [lit], when [s] starts with it. *)
Fixpoint drop_prefix (lit s : string) : option string :=
  match lit with
  | EmptyString => Some s
  | String a lit' =>
      match s with
      | EmptyString => None
      | String b s' => if Ascii.eqb a b then drop_prefix lit' s' else None
      end
  end.

(** The longest prefix of [s] made of characters in [p], and the rest. *)
Fixpoint span (p : ascii -> bool) (s : string) : string * string :=
  match s with
  | EmptyString => (EmptyString, EmptyString)
  | String c s' =>
      if p c then let (w, r) := span p s' in (String c w, r)
      else (EmptyString, s)
  end.

(** [re.search]: the anchored matcher [m] is tried at every position from the
    left, the end of the string included; the first success is the match. *)
Fixpoint re_search {A : Type} (m : string -> option A) (s : string) : option A :=
  match m s with
  | Some g => Some g
  | None =>
      match s with
      | EmptyString => None
      | String _ s' => re_search m s'
      end
  end.

(** [lit ([class]+) tail], anchored; the value is group 1.  The class is
    greedy, and in each of the three patterns below the character that must
    follow the group is outside the class (or the pattern ends), so the only
    candidate for the group is the longest run. *)
Definition match_group (lit : string) (cls : ascii -> bool) (tail : string)
    (s : string) : option string :=
  match drop_prefix lit s with
  | None => None
  | Some r =>
      let (g, r') := span cls r in
      match g with
      | EmptyString => None
      | _ => match drop_prefix tail r' with
             | Some _ => Some g
             | None => None
             end
      end
  end.

(** [score_pattern = r"Predicted score distribution: \[([\d\.\s,]+)\]"] *)
Definition score_class (c : ascii) : bool :=
  is_digit c || Ascii.eqb c "." || is_space c || Ascii.eqb c ",".

Definition score_match (line : string) : option string :=
  re_search (match_group "Predicted score distribution: [" score_class "]") line.

(** [image_pattern = r"Evaluating: ([\w\.\-]+)"] *)
Definition image_class (c : ascii) : bool :=
  is_word c || Ascii.eqb c "." || Ascii.eqb c "-".

Definition image_match (line : string) : option string :=
  re_search (match_group "Evaluating: " image_class "") line.

(** [model_pattern = r"===== Evaluating (\w+) quality"] *)
Definition model_match (line : string) : option string :=
  re_search (match_group "===== Evaluating " is_word " quality") line.

(** ** [float(token)] on the characters a score payload can hold

    Within [score_class] a token is a float literal exactly when, stripped of
    surrounding white space, it is [digits], [digits.], [digits.digits] or
    [.digits]; signs, exponents, [inf], [nan] and underscores need characters
    the pattern does not let through. *)

Definition digit_val (c : ascii) : N := N.of_nat (Nat.sub (code c) 48).

Fixpoint digits_val (acc : N) (s : string) : N :=
  match s with
  | EmptyString => acc
  | String c s' => digits_val (N.add (N.mul 10 acc) (digit_val c)) s'
  end.

Definition decimal_value (int_part frac_part : string) : Q :=
  Qmake (Z.of_N (digits_val 0 (int_part ++ frac_part)))
        (Z.to_pos (Z.pow 10 (Z.of_nat (String.length frac_part)))).

Definition py_float (token : string) : result Q :=
  let t := rstrip is_c_space (lstrip is_c_space token) in
  let (int_part, rest) := span is_digit t in
  match rest with
  | EmptyString =>
      match int_part with
      | EmptyString => Err ValueError
      | _ => Ok (decimal_value int_part EmptyString)
      end
  | String c rest' =>
      if Ascii.eqb c "." then
        let (frac_part, junk) := span is_digit rest' in
        match junk with
        | EmptyString =>
            match int_part, frac_part with
            | EmptyString, EmptyString => Err ValueError
            | _, _ => Ok (decimal_value int_part frac_part)
            end
        | _ => Err ValueError
        end
      else Err ValueError
  end.

(** [[float(s.strip()) for s in score_str.split(',')]] *)
Definition parse_scores (score_str : string) : result (list Q) :=
  mapM (fun s => py_float (strip s)) (str_split "," score_str).

(** ** Python dictionaries: insertion-ordered association lists *)

Section Dict.
Context {K V : Type}.
Variable key_eqb : K -> K -> bool.

(** [d.get(k)] *)
Fixpoint dict_get (k : K) (d : list (K * V)) : option V :=
  match d with
  | [] => None
  | (k', v) :: d' => if key_eqb k k' then Some v else dict_get k d'
  end.

(** [d[k] = v]: an existing key keeps its place, a new one goes last. *)
Fixpoint dict_set (k : K) (v : V) (d : list (K * V)) : list (K * V) :=
  match d with
  | [] => [(k, v)]
  | (k', v') :: d' =>
      if key_eqb k k' then (k', v) :: d' else (k', v') :: dict_set k v d'
  end.

Definition dict_keys (d : list (K * V)) : list K := map fst d.
End Dict.

(** ** The output parser ([parse_results.parse_results]) *)

Definition distribution : Type := list Q.
Definition variants : Type := list (string * distribution).
Definition score_table : Type := list (string * variants).

Record parser_state : Type := mk_state {
  results : score_table;
  current_image : option string;
  current_model : option string
}.

Definition initial_state : parser_state :=
  {| results := []; current_image := None; current_model := None |}.

(** Truth value of [current_image] / [current_model]: [None] and the empty
    string are false. *)
Definition truthy (o : option string) : bool :=
  match o with
  | Some (String _ _) => true
  | _ => false
  end.

Definition unwrap (o : option string) : string :=
  match o with
  | Some s => s
  | None => EmptyString
  end.

(** [results[image][model] = scores] on a [defaultdict(dict)]. *)
Definition record_scores (image model : string) (scores : distribution)
    (table : score_table) : score_table :=
  let inner := match dict_get String.eqb image table with
               | Some d => d
               | None => []
               end in
  dict_set String.eqb image (dict_set String.eqb model scores inner) table.

(** [table[image][model]], when both keys are there. *)
Definition lookup (image model : string) (table : score_table)
  : option distribution :=
  match dict_get String.eqb image table with
  | Some inner => dict_get String.eqb model inner
  | None => None
  end.

(** The body of the loop over the lines; first match wins. *)
Definition parse_line (st : parser_state) (line : string) : result parser_state :=
  match model_match line with
  | Some g =>
      Ok {| results := results st;
            current_image := current_image st;
            current_model := Some (lower g) |}
  | None =>
      match image_match line with
      | Some g =>
          Ok {| results := results st;
                current_image := Some g;
                current_model := current_model st |}
      | None =>
          match score_match line with
          | Some score_str =>
              if truthy (current_image st) && truthy (current_model st) then
                scores <- parse_scores score_str ;;
                Ok {| results := record_scores (unwrap (current_image st))
                                   (unwrap (current_model st)) scores (results st);
                      current_image := current_image st;
                      current_model := current_model st |}
              else Ok st
          | None => Ok st
          end
      end
  end.

Definition LF : ascii := "010"%char.

Definition parse_lines (lines : list string) : result parser_state :=
  foldM parse_line initial_state lines.

Definition parse_results (output_text : string) : result score_table :=
  st <- parse_lines (str_split LF output_text) ;; Ok (results st).

(** ** The statistics engine ([calculate_mean_score], [calculate_std_score]) *)

(** [np.arange(1, 11)] *)
Definition ranks : list Q := [1; 2; 3; 4; 5; 6; 7; 8; 9; 10]%Q.

Fixpoint zip_with (f : Q -> Q -> Q) (a b : list Q) : list Q :=
  match a, b with
  | x :: a', y :: b' => f x y :: zip_with f a' b'
  | _, _ => []
  end.

(** [a * b] on one-dimensional arrays: equal shapes go element by element, a
    one-element array is stretched, any other pair of shapes is refused. *)
Definition np_mul (a b : list Q) : result (list Q) :=
  if Nat.eqb (List.length a) (List.length b) then Ok (zip_with Qmult a b)
  else match a, b with
       | [x], _ => Ok (map (Qmult x) b)
       | _, [y] => Ok (map (fun x => Qmult x y) a)
       | _, _ => Err ValueError
       end.

(** [np.sum] *)
Definition np_sum (a : list Q) : Q := fold_right Qplus 0%Q a.

(** What [float(np.sqrt(x))] can be: a real, or NaN below zero. *)
Inductive np_float : Type :=
| np_nan
| np_real (x : R).

Definition np_sqrt (x : Q) : np_float :=
  if Qle_bool 0 x then np_real (sqrt (Q2R x)) else np_nan.

Definition calculate_mean_score (scores : distribution) : result Q :=
  weighted <- np_mul scores ranks ;;
  Ok (np_sum weighted).

Definition calculate_std_score (scores : distribution) : result np_float :=
  mean <- calculate_mean_score scores ;;
  let squares := map (fun r => ((r - mean) * (r - mean))%Q) ranks in
  weighted <- np_mul scores squares ;;
  Ok (np_sqrt (np_sum weighted)).

(** ** Paths ([os.path])

    A directory is modelled by the files directly inside it, keyed by file
    name; [os.path.join(dir, name)] with a [name] free of slashes is the file
    [name] of that directory. *)

Definition SLASH : ascii := "/"%char.
Definition DOT : ascii := "."%char.

Fixpoint last_or {A : Type} (l : list A) (d : A) : A :=
  match l with
  | [] => d
  | [x] => x
  | _ :: l' => last_or l' d
  end.

(** [os.path.basename] *)
Definition basename (p : string) : string :=
  last_or (str_split SLASH p) EmptyString.

(** [os.path.splitext(name)[0]] for a name without directory part: cut at the
    last dot, unless only dots come before it. *)
Definition splitext_root (name : string) : string :=
  match rev (str_split DOT name) with
  | [] => name
  | [_] => name
  | _ext :: before =>
      let root := str_join DOT (rev before) in
      if forall_chars (Ascii.eqb DOT) root then name else root
  end.

(** ** The report renderer ([plot_score_distribution], [visualize_image]) *)

Record plot : Type := mk_plot {
  plot_title : string;
  plot_color : string;
  plot_bars : distribution;
  plot_mean : Q;           (* the dashed marker and the figure in the title *)
  plot_std : np_float
}.

(** The text box under the picture, before its [:.2f] formatting. *)
Inductive overlay : Type :=
| OverallScore (score : Q)
| AestheticScore (score : Q)
| TechnicalScore (score : Q).

Record figure : Type := mk_figure {
  grid : option (nat * nat);     (* GridSpec rows and columns *)
  picture : option string;       (* the image shown, by path *)
  plots : list plot;
  caption : option overlay
}.

Definition plot_score_distribution (scores : distribution) (title color : string)
  : result (plot * Q * np_float) :=
  mean <- calculate_mean_score scores ;;
  std <- calculate_std_score scores ;;
  Ok (mk_plot title color scores mean std, mean, std).

(** The figure [visualize_image] has drawn when it reaches [plt.savefig]. *)
Definition draw_figure (image_path : string)
    (aesthetic_scores technical_scores : option distribution) : result figure :=
  match aesthetic_scores, technical_scores with
  | Some aes, Some tech =>
      a <- plot_score_distribution aes "Aesthetic Scores" "blue" ;;
      t <- plot_score_distribution tech "Technical Scores" "green" ;;
      let '(aes_plot, aes_mean, _) := a in
      let '(tech_plot, tech_mean, _) := t in
      let overall_score := ((aes_mean + tech_mean) / 2)%Q in
      Ok (mk_figure (Some (2, 2)%nat) (Some image_path) [aes_plot; tech_plot]
                    (Some (OverallScore overall_score)))
  | Some aes, None =>
      a <- plot_score_distribution aes "Aesthetic Scores" "blue" ;;
      let '(aes_plot, aes_mean, _) := a in
      Ok (mk_figure (Some (1, 2)%nat) (Some image_path) [aes_plot]
                    (Some (AestheticScore aes_mean)))
  | None, Some tech =>
      t <- plot_score_distribution tech "Technical Scores" "green" ;;
      let '(tech_plot, tech_mean, _) := t in
      Ok (mk_figure (Some (1, 2)%nat) (Some image_path) [tech_plot]
                    (Some (TechnicalScore tech_mean)))
  | None, None => Ok (mk_figure None None [] None)
  end.

(** ** Documents and directories *)

(** What [json.load] returns. *)
#[local] Set Warnings "-register-all".
Inductive json : Type :=
| JNull
| JBool (b : bool)
| JNum (q : Q)
| JStr (s : string)
| JArr (items : list json)
| JObj (fields : list (string * json)).

Inductive file_content : Type :=
| Document (doc : json)      (* text written by [json.dump] *)
| Image (fig : figure)       (* a figure written by [plt.savefig]: PNG bytes *)
| Garbage                    (* text that is not JSON *)
| Binary                     (* bytes that are not UTF-8 text *)
| Folder.                    (* a directory under that name *)

Definition directory : Type := list (string * file_content).

(** [open(name, 'w')] followed by the write: replaces or creates. *)
Definition write_file (name : string) (content : file_content) (dir : directory)
  : directory :=
  dict_set String.eqb name content dir.

(** [open(json_file, 'r')] then [json.load], with UTF-8 as the encoding the
    file is read in. *)
Definition json_load (content : file_content) : result json :=
  match content with
  | Document doc => Ok doc
  | Garbage => Err JSONDecodeError
  | Image _ | Binary => Err UnicodeDecodeError
  | Folder => Err IsADirectoryError
  end.

(** [data[key]] with a string key. *)
Definition subscript (data : json) (key : string) : result json :=
  match data with
  | JObj fields =>
      match dict_get String.eqb key fields with
      | Some v => Ok v
      | None => Err (KeyError key)
      end
  | _ => Err TypeError
  end.

(** Python's [==] on the values that can be dictionary keys; [True] and
    [False] are the numbers 1 and 0. *)
Definition as_number (j : json) : option Q :=
  match j with
  | JNum q => Some q
  | JBool true => Some 1%Q
  | JBool false => Some 0%Q
  | _ => None
  end.

Definition py_eqb (a b : json) : bool :=
  match a, b with
  | JStr x, JStr y => String.eqb x y
  | JNull, JNull => true
  | _, _ => match as_number a, as_number b with
            | Some x, Some y => Qeq_bool x y
            | _, _ => false
            end
  end.

Definition hashable (j : json) : bool :=
  match j with
  | JArr _ | JObj _ => false
  | _ => true
  end.

Definition to_json (scores : distribution) : json := JArr (map JNum scores).

(** ** The result store *)

(** [parse_results.save_results]: one document per image, variant name to
    distribution. *)
Definition save_one (dir : directory) (entry : string * variants) : directory :=
  let (image, models) := entry in
  let output_file := (splitext_root image ++ "_scores.json")%string in
  write_file output_file
    (Document (JObj (map (fun m => (fst m, to_json (snd m))) models))) dir.

Definition save_results (table : score_table) (output_dir : directory) : directory :=
  fold_left save_one table output_dir.

(** The tail of [predict_script.main]: one flattened document per
    (image, variant) pair.  [mean_score] is the sum [predict] computes, the
    same formula as [calculate_mean_score]. *)
Definition save_prediction (image_path model_type : string) (scores : distribution)
    (output_dir : directory) : result directory :=
  mean_score <- calculate_mean_score scores ;;
  let base_filename := splitext_root (basename image_path) in
  let document :=
    JObj [("image", JStr (basename image_path));
          ("model_type", JStr model_type);
          ("mean_score", JNum mean_score);
          ("scores", to_json scores)] in
  Ok (write_file (base_filename ++ "_" ++ model_type ++ "_results.json")%string
                 (Document document) output_dir).

Fixpoint ends_with (suffix s : string) : bool :=
  match drop_prefix suffix s with
  | Some EmptyString => true
  | _ => match s with
         | EmptyString => false
         | String _ s' => ends_with suffix s'
         end
  end.

(** [glob.glob(os.path.join(results_dir, "*.json"))]: hidden files are not
    matched by [*]. *)
Definition glob_json (dir : directory) : directory :=
  filter (fun f => match fst f with
                   | String c _ => negb (Ascii.eqb c DOT) && ends_with ".json" (fst f)
                   | EmptyString => false
                   end) dir.

Definition loaded : Type := list (json * list (json * json)).

(** The body of the loop of [visualize_results.load_results]. *)
Definition load_file (model_type : string) (table : loaded)
    (json_file : string * file_content) : result loaded :=
  data <- json_load (snd json_file) ;;
  skip <- (if String.eqb model_type "both" then Ok false
           else mt <- subscript data "model_type" ;;
                Ok (negb (py_eqb mt (JStr model_type)))) ;;
  if (skip : bool) then Ok table
  else
    image_name <- subscript data "image" ;;
    if negb (hashable image_name) then Err TypeError
    else
      let table1 := match dict_get py_eqb image_name table with
                    | Some _ => table
                    | None => dict_set py_eqb image_name [] table
                    end in
      scores <- subscript data "scores" ;;
      let inner := match dict_get py_eqb image_name table1 with
                   | Some d => d
                   | None => []
                   end in
      variant <- subscript data "model_type" ;;
      if negb (hashable variant) then Err TypeError
      else Ok (dict_set py_eqb image_name (dict_set py_eqb variant scores inner) table1).

Definition load_results (results_dir : directory) (model_type : string)
  : result loaded :=
  foldM (load_file model_type) [] (glob_json results_dir).

(** [visualize_results.visualize_image]: draw, then save under the image's
    base name.  The picture file is taken to be readable: [Image.open] and
    the drawing calls of matplotlib are not modelled beyond what they are
    given. *)
Definition visualize_image (image_path : string)
    (aesthetic_scores technical_scores : option distribution)
    (output_dir : directory) : result directory :=
  fig <- draw_figure image_path aesthetic_scores technical_scores ;;
  let output_file := (splitext_root (basename image_path) ++ "_scores.png")%string in
  Ok (write_file output_file (Image fig) output_dir).


(** ** Vocabulary of the statements *)

(** The characters of a lower-cased word. *)
Definition is_lower_word (c : ascii) : bool :=
  is_digit c || is_lower c || Nat.eqb (code c) 95.

(** A line that is neither a header nor an announcement. *)
Definition plain (line : string) : Prop :=
  model_match line = None /\ image_match line = None.

(** A line none of the three patterns matches. *)
Definition noise (line : string) : Prop :=
  plain line /\ score_match line = None.

(** Every key sits once in the table, and once in each inner dictionary. *)
Definition well_keyed (table : score_table) : Prop :=
  NoDup (dict_keys table) /\ Forall (fun e => NoDup (dict_keys (snd e))) table.

(** The current image and variant, once set, are never the empty string. *)
Definition keys_nonempty (st : parser_state) : Prop :=
  current_image st <> Some EmptyString /\ current_model st <> Some EmptyString.

Definition state_ok (st : parser_state) : Prop :=
  well_keyed (results st) /\ keys_nonempty st.

(** The line [line], met in state [st], assigns to the key (image, model). *)
Definition writes_to (st : parser_state) (line image model : string) : Prop :=
  plain line /\ score_match line <> None
  /\ current_image st = Some image /\ current_model st = Some model.

(** The variant name [v] is the lower-cased word captured from a header line
    among [lines]. *)
Definition from_header (lines : list string) (v : string) : Prop :=
  exists line g, In line lines /\ model_match line = Some g /\ v = lower g.

Definition variants_from_headers (lines : list string) (st : parser_state) : Prop :=
  (forall m, current_model st = Some m -> from_header lines m)
  /\ (forall image inner v d,
         In (image, inner) (results st) -> In (v, d) inner -> from_header lines v).

(** ** Sample captures *)

Definition text_of (lines : list string) : string := str_join LF lines.

Definition header_aesthetic : string := "===== Evaluating aesthetic quality =====".
Definition header_technical : string := "===== Evaluating technical quality =====".
Definition header_color : string := "===== Evaluating color quality =====".
Definition announce_photo1 : string := "Evaluating: photo1.jpg".
Definition announce_photo2 : string := "Evaluating: photo2.jpg".
Definition uniform_line : string :=
  "Predicted score distribution: [0.1,0.1,0.1,0.1,0.1,0.1,0.1,0.1,0.1,0.1]".
Definition peaked_line : string :=
  "Predicted score distribution: [0, 0, 0, 0, 0.5, 0.5, 0, 0, 0, 0]".
Definition short_line : string := "Predicted score distribution: [0.1, 0.2]".
Definition broken_line : string := "Predicted score distribution: [0.1,, 0.2]".

Definition uniform : distribution :=
  [0.1; 0.1; 0.1; 0.1; 0.1; 0.1; 0.1; 0.1; 0.1; 0.1]%Q.
Definition peaked : distribution :=
  [0; 0; 0; 0; 0.5; 0.5; 0; 0; 0; 0]%Q.

Definition capture_scenario_A : string :=
  text_of [header_aesthetic; announce_photo1; uniform_line].
Definition capture_early_scores : string :=
  text_of [announce_photo1; uniform_line; header_aesthetic].
Definition capture_two_images : string :=
  text_of ["Loading model"; header_aesthetic; announce_photo1; uniform_line;
           announce_photo2; peaked_line].
Definition capture_rerun : string :=
  text_of [header_aesthetic; announce_photo1; uniform_line; peaked_line;
           announce_photo2; uniform_line].
Definition capture_color : string :=
  text_of [header_color; announce_photo1; uniform_line].
Definition capture_short : string :=
  text_of [header_aesthetic; announce_photo1; short_line].
Definition capture_broken : string :=
  text_of [header_aesthetic; announce_photo1; broken_line;
           announce_photo2; uniform_line].

(** The distributions handed to the renderer, aesthetic first. *)
Definition present (scores : option distribution) : list distribution :=
  match scores with
  | Some d => [d]
  | None => []
  end.

(** The file [visualize_image] saves to, inside the output directory. *)
Definition report_name (image_path : string) : string :=
  (splitext_root (basename image_path) ++ "_scores.png")%string.

Definition blank_figure : figure := mk_figure None None [] None.

(** ** Sample result directories *)

(** The document [predict_script] writes for photo1.jpg, aesthetic model,
    uniform prediction. *)
Definition flat_document : json :=
  JObj [("image", JStr "photo1.jpg");
        ("model_type", JStr "aesthetic");
        ("mean_score", JNum 5.5);
        ("scores", to_json uniform)].

(** The document [save_results] writes for the same prediction. *)
Definition nested_document : json :=
  JObj [("aesthetic", to_json uniform)].

Definition directory_with_corrupt_record : directory :=
  [("photo1_aesthetic_results.json", Document flat_document);
   ("photo2_aesthetic_results.json", Garbage)].

(** A document of the shape [save_results] writes. *)
Definition nested_shape (f : string * file_content) : Prop :=
  exists models : variants,
    snd f = Document (JObj (map (fun m => (fst m, to_json (snd m))) models)).

(** ** More vocabulary: where images and distributions come from *)

(** The image name [image] was captured from an announcement line among
    [lines]. *)
Definition from_announcement (lines : list string) (image : string) : Prop :=
  exists line, In line lines /\ model_match line = None
               /\ image_match line = Some image.

(** The distribution [d] was read from a distribution line among [lines]. *)
Definition from_score_line (lines : list string) (d : distribution) : Prop :=
  exists line score_str,
    In line lines /\ plain line /\ score_match line = Some score_str
    /\ parse_scores score_str = Ok d.

Definition entries_from_lines (lines : list string) (st : parser_state) : Prop :=
  (forall i, current_image st = Some i -> from_announcement lines i)
  /\ (forall image inner,
         In (image, inner) (results st) ->
         from_announcement lines image /\ inner <> [])
  /\ (forall image inner v d,
         In (image, inner) (results st) -> In (v, d) inner ->
         from_score_line lines d).

(** All the weight on rank [k] (ranks count from 1). *)
Definition point_mass (k : nat) : distribution :=
  (repeat 0%Q (k - 1) ++ [1%Q] ++ repeat 0%Q (10 - k))%list.

(** The variance under the square root of [calculate_std_score], and the
    second moment of a distribution. *)
Definition variance_about (mean : Q) (d : distribution) : Q :=
  np_sum (zip_with Qmult d (map (fun r => ((r - mean) * (r - mean))%Q) ranks)).

Definition second_moment (d : distribution) : Q :=
  np_sum (zip_with Qmult d (map (fun r => (r * r)%Q) ranks)).

(** ** More vocabulary: file names *)

(** The test [glob_json] applies to a file name. *)
Definition json_name (name : string) : bool :=
  match name with
  | String c _ => negb (Ascii.eqb c DOT) && ends_with ".json" name
  | EmptyString => false
  end.

(** A name [glob] hides from [*]: it starts with a dot. *)
Definition hidden (name : string) : bool :=
  match name with
  | String c _ => Ascii.eqb c DOT
  | EmptyString => false
  end.

(** The file [save_prediction] writes to. *)
Definition prediction_name (image_path model_type : string) : string :=
  (splitext_root (basename image_path) ++ "_" ++ model_type ++ "_results.json")%string.

(** The file [save_results] writes the variants of [image] to. *)
Definition scores_name (image : string) : string :=
  (splitext_root image ++ "_scores.json")%string.

(** The per-image document [save_results] writes. *)
Definition nested_document_of (models : variants) : json :=
  JObj (map (fun m => (fst m, to_json (snd m))) models).

(** [run_assessment.check_results], on the results directory when it exists. *)
Definition check_results (results_dir : option directory) : bool :=
  match results_dir with
  | None => false
  | Some dir => Nat.ltb 0 (List.length (glob_json dir))
  end.

(** The last character of a string. *)
Fixpoint last_char (s : string) : option ascii :=
  match s with
  | EmptyString => None
  | String c s' => match last_char s' with
                   | Some l => Some l
                   | None => Some c
                   end
  end.


(** ** More vocabulary: the loader's table *)

(** What the last three statements of the loop of [load_results] do to the
    table for a record (image, variant, scores). *)
Definition merge_record (image variant scores : json) (table : loaded) : loaded :=
  let table1 := match dict_get py_eqb image table with
                | Some _ => table
                | None => dict_set py_eqb image [] table
                end in
  let inner := match dict_get py_eqb image table1 with
               | Some d => d
               | None => []
               end in
  dict_set py_eqb image (dict_set py_eqb variant scores inner) table1.

(** [table[image][variant]] on the loader's table. *)
Definition loaded_lookup (image variant : json) (table : loaded) : option json :=
  match dict_get py_eqb image table with
  | Some inner => dict_get py_eqb variant inner
  | None => None
  end.

(** A document of the shape [predict_script] writes. *)
Definition flat_document_of (image model_type : string) (mean_score : Q)
    (scores : json) : json :=
  JObj [("image", JStr image);
        ("model_type", JStr model_type);
        ("mean_score", JNum mean_score);
        ("scores", scores)].

(** ** The statistics in binary64

    [calculate_mean_score] and [calculate_std_score] on a list of Python
    floats, operation by operation as numpy performs them on float64 arrays:
    the integer ranks of [np.arange(1, 11)] are converted exactly, every
    product, difference, sum and the square root are rounded to nearest
    even, and overflow gives an infinity.  A list of Python integers would
    make numpy compute in int64; that case is outside this model. *)

Module Binary64.

Definition float : Type := SpecFloat.spec_float.

Definition prec : Z := 53.
Definition emax : Z := 1024.

Definition zero : float := SpecFloat.S754_zero false.
Definition nan : float := SpecFloat.S754_nan.

(** The float nearest to the integer [z]. *)
Definition of_Z (z : Z) : float := SpecFloat.binary_normalize prec emax z 0 false.

Definition add : float -> float -> float := SpecFloat.SFadd prec emax.
Definition sub : float -> float -> float := SpecFloat.SFsub prec emax.
Definition mul : float -> float -> float := SpecFloat.SFmul prec emax.
Definition sqrt : float -> float := SpecFloat.SFsqrt prec emax.

(** [x <= y] on floats; false as soon as one side is NaN. *)
Definition leb : float -> float -> bool := SpecFloat.SFleb.

(** A finite float that is not negative. *)
Definition finite_nonneg (x : float) : bool :=
  match x with
  | SpecFloat.S754_zero _ => true
  | SpecFloat.S754_finite false _ _ => true
  | _ => false
  end.

(** [np.arange(1, 11)] as float64. *)
Definition arange_1_11 : list float :=
  map of_Z [1; 2; 3; 4; 5; 6; 7; 8; 9; 10]%Z.

Fixpoint zip_with (f : float -> float -> float) (a b : list float) : list float :=
  match a, b with
  | x :: a', y :: b' => f x y :: zip_with f a' b'
  | _, _ => []
  end.

(** [a * b] with broadcasting, as in the exact model. *)
Definition np_mul (a b : list float) : result (list float) :=
  if Nat.eqb (List.length a) (List.length b) then Ok (zip_with mul a b)
  else match a, b with
       | [x], _ => Ok (map (mul x) b)
       | _, [y] => Ok (map (fun x => mul x y) a)
       | _, _ => Err ValueError
       end.

(** The eight running sums of numpy's pairwise summation: whole blocks of
    eight are added lane by lane, what is left over is returned. *)
Fixpoint lanes (r : list float) (a : list float) {struct a}
  : list float * list float :=
  match a with
  | a0 :: a1 :: a2 :: a3 :: a4 :: a5 :: a6 :: a7 :: rest =>
      lanes (zip_with add r [a0; a1; a2; a3; a4; a5; a6; a7]) rest
  | _ => (r, a)
  end.

(** The summation [np.sum] performs on a contiguous float64 array, numpy's
    pairwise summation, for at most 128 elements (longer arrays, which these
    functions never build, are split in two): under eight elements a running
    sum from 0.0; otherwise eight lanes, combined as the balanced tree
    [((r0+r1)+(r2+r3))+((r4+r5)+(r6+r7))], then the left-over elements one by
    one.  It is not the left-to-right sum of Python's [sum]: on the ten
    products of the uniform distribution it gives 5.5 where the running sum
    gives 5.500000000000001. *)
Definition pairwise_sum (a : list float) : float :=
  match a with
  | a0 :: a1 :: a2 :: a3 :: a4 :: a5 :: a6 :: a7 :: rest =>
      match lanes [a0; a1; a2; a3; a4; a5; a6; a7] rest with
      | ([r0; r1; r2; r3; r4; r5; r6; r7], tail) =>
          fold_left add tail
            (add (add (add r0 r1) (add r2 r3)) (add (add r4 r5) (add r6 r7)))
      | (_, _) => nan
      end
  | _ => fold_left add a zero
  end.

(** [np.sum]: the reduction starts from the identity 0.0. *)
Definition np_sum (a : list float) : float := add zero (pairwise_sum a).

Definition calculate_mean_score (scores : list float) : result float :=
  weighted <- np_mul scores arange_1_11 ;;
  Ok (np_sum weighted).

Definition calculate_std_score (scores : list float) : result float :=
  mean <- calculate_mean_score scores ;;
  let deviations := map (fun r => sub r mean) arange_1_11 in
  let squares := map (fun x => mul x x) deviations in
  weighted <- np_mul scores squares ;;
  Ok (sqrt (np_sum weighted)).

End Binary64.

(** The floats 0.1 and 1e200, and two distributions of floats. *)
Definition f64_tenth : Binary64.float :=
  SpecFloat.S754_finite false 7205759403792794 (-56).
Definition f64_1e200 : Binary64.float := Binary64.of_Z (10 ^ 200).
Definition f64_uniform : list Binary64.float := repeat f64_tenth 10.
Definition f64_zeros : list Binary64.float := repeat Binary64.zero 10.
Definition f64_huge : list Binary64.float := f64_1e200 :: repeat Binary64.zero 9.

(** ** Vocabulary: distribution lines as the tool prints them *)

Definition is_ascii (c : ascii) : bool := Nat.ltb (code c) 128.

Definition OPEN_BRACKET : ascii := "["%char.
Definition CLOSE_BRACKET : ascii := "]"%char.

(** No bracket of either kind. *)
Definition bracket_free (s : string) : bool :=
  forall_chars (fun c => negb (Ascii.eqb c OPEN_BRACKET)
                         && negb (Ascii.eqb c CLOSE_BRACKET)) s.

(** No opening bracket. *)
Definition no_open_bracket (s : string) : bool :=
  forall_chars (fun c => negb (Ascii.eqb c OPEN_BRACKET)) s.

(** The line [Predicted score distribution: [payload]rest]. *)
Definition distribution_line (payload rest : string) : string :=
  ("Predicted score distribution: [" ++ payload ++ "]" ++ rest)%string.

(** The payload is one the pattern lets through: not empty, and made of
    digits, dots, white space and commas only. *)
Definition payload_matches (payload : string) : bool :=
  match payload with
  | EmptyString => false
  | _ => forall_chars score_class payload
  end.

Definition capture_letters : string :=
  text_of [header_aesthetic; announce_photo1;
           distribution_line "0.1, abc, 1e-05" EmptyString;
           announce_photo2; uniform_line].

(** ** The renderer with the picture file in view

    [visualize_image] where [Image.open] can fail: [open_image] tells, for a
    path, whether the picture opens or which exception is raised.  The
    picture is opened only when a variant is present, before anything is
    plotted. *)
Definition draw_figure_at (open_image : string -> result unit)
    (image_path : string)
    (aesthetic_scores technical_scores : option distribution) : result figure :=
  match aesthetic_scores, technical_scores with
  | None, None => draw_figure image_path None None
  | _, _ =>
      _ <- open_image image_path ;;
      draw_figure image_path aesthetic_scores technical_scores
  end.

Definition visualize_image_at (open_image : string -> result unit)
    (image_path : string)
    (aesthetic_scores technical_scores : option distribution)
    (output_dir : directory) : result directory :=
  fig <- draw_figure_at open_image image_path aesthetic_scores technical_scores ;;
  let output_file := (splitext_root (basename image_path) ++ "_scores.png")%string in
  Ok (write_file output_file (Image fig) output_dir).

(** A file system in which only [sample_images/photo1.jpg] is a picture. *)
Definition only_photo1 (path : string) : result unit :=
  if String.eqb path "sample_images/photo1.jpg" then Ok tt
  else Err FileNotFoundError.
(** * Properties *)

(** ** Loops and dictionaries *)

Lemma foldM_app {S A : Type} (body : S -> A -> result S) (xs ys : list A) (st : S) :
  foldM body st (xs ++ ys) = (st' <- foldM body st xs ;; foldM body st' ys).
Proof.
  revert st; induction xs as [|x xs IH]; intro st; simpl.
  - reflexivity.
  - destruct (body st x) as [st1|e]; simpl; [apply IH | reflexivity].
Qed.

Lemma foldM_skip {S A : Type} (body : S -> A -> result S) (xs : list A) (st : S) :
  Forall (fun x => body st x = Ok st) xs -> foldM body st xs = Ok st.
Proof.
  induction 1 as [|x xs Hx _ IH]; simpl.
  - reflexivity.
  - rewrite Hx; simpl; exact IH.
Qed.

Lemma mapM_length {A B : Type} (f : A -> result B) (xs : list A) (ys : list B) :
  mapM f xs = Ok ys -> List.length ys = List.length xs.
Proof.
  revert ys; induction xs as [|x xs IH]; intros ys; simpl.
  - intros [= <-]; reflexivity.
  - destruct (f x) as [y|e]; simpl; [|discriminate].
    destruct (mapM f xs) as [ys'|e]; simpl; [|discriminate].
    intros [= <-]; simpl; f_equal; apply IH; reflexivity.
Qed.

Section StringDict.
Context {V : Type}.
Implicit Types (d : list (string * V)) (k : string) (v : V).

Lemma dict_get_set_same k v d :
  dict_get String.eqb k (dict_set String.eqb k v d) = Some v.
Proof.
  induction d as [|[k' v'] d IH]; simpl.
  - rewrite String.eqb_refl; reflexivity.
  - destruct (String.eqb k k') eqn:E; simpl; rewrite E.
    + reflexivity.
    + exact IH.
Qed.

Lemma dict_get_set_other k k' v d :
  k <> k' ->
  dict_get String.eqb k (dict_set String.eqb k' v d) = dict_get String.eqb k d.
Proof.
  intro Hne.
  assert (Hkk' : String.eqb k k' = false) by (apply String.eqb_neq; exact Hne).
  induction d as [|[k0 v0] d IH]; simpl.
  - rewrite Hkk'; reflexivity.
  - destruct (String.eqb k' k0) eqn:E; simpl.
    + apply String.eqb_eq in E; subst k0. rewrite Hkk'; reflexivity.
    + rewrite IH; reflexivity.
Qed.

Lemma dict_set_In k v k0 v0 d :
  In (k0, v0) (dict_set String.eqb k v d) ->
  (k0 = k /\ v0 = v) \/ In (k0, v0) d.
Proof.
  induction d as [|[k' v'] d IH]; simpl.
  - intros [[= <- <-]|[]]; left; split; reflexivity.
  - destruct (String.eqb k k') eqn:E; simpl.
    + apply String.eqb_eq in E; subst k'.
      intros [[= <- <-]|H]; [left; split; reflexivity | right; right; exact H].
    + intros [H|H]; [right; left; exact H|].
      destruct (IH H) as [?|?]; [left; assumption | right; right; assumption].
Qed.

Lemma dict_set_keys_NoDup k v d :
  NoDup (dict_keys d) -> NoDup (dict_keys (dict_set String.eqb k v d)).
Proof.
  unfold dict_keys.
  induction d as [|[k' v'] d IH]; simpl; intro Hnd.
  - constructor; [intros [] | constructor].
  - inversion Hnd as [|? ? Hnotin Hnd']; subst.
    destruct (String.eqb k k') eqn:E; simpl.
    + constructor; assumption.
    + constructor; [|apply IH; exact Hnd'].
      intro Hin. apply in_map_iff in Hin. destruct Hin as [[k1 v1] [Hk Hin]].
      simpl in Hk; subst k1.
      destruct (dict_set_In _ _ _ _ _ Hin) as [[-> _]|Hin'].
      * rewrite String.eqb_refl in E; discriminate.
      * apply Hnotin. apply in_map_iff. exists (k', v1). split; [reflexivity|exact Hin'].
Qed.

Lemma dict_get_In k v d :
  dict_get String.eqb k d = Some v -> In (k, v) d.
Proof.
  induction d as [|[k' v'] d IH]; simpl; [discriminate|].
  destruct (String.eqb k k') eqn:E.
  - apply String.eqb_eq in E; subst k'. intros [= <-]; left; reflexivity.
  - intro H; right; apply IH; exact H.
Qed.

Lemma dict_In_get_NoDup k v d :
  NoDup (dict_keys d) -> In (k, v) d -> dict_get String.eqb k d = Some v.
Proof.
  unfold dict_keys.
  induction d as [|[k' v'] d IH]; simpl; intros Hnd Hin; [destruct Hin|].
  inversion Hnd as [|? ? Hnotin Hnd']; subst.
  destruct Hin as [[= -> ->]|Hin].
  - rewrite String.eqb_refl; reflexivity.
  - destruct (String.eqb k k') eqn:E.
    + apply String.eqb_eq in E; subst k'.
      exfalso; apply Hnotin. apply in_map_iff. exists (k, v); split; [reflexivity|exact Hin].
    + apply IH; assumption.
Qed.
End StringDict.

(** [lookup] after [record_scores]. *)
Lemma lookup_record_same image model scores table :
  lookup image model (record_scores image model scores table) = Some scores.
Proof.
  unfold lookup, record_scores.
  rewrite dict_get_set_same. apply dict_get_set_same.
Qed.

Lemma lookup_record_other image model image' model' scores table :
  (image, model) <> (image', model') ->
  lookup image model (record_scores image' model' scores table)
  = lookup image model table.
Proof.
  intro Hne. unfold lookup, record_scores.
  destruct (String.eqb_spec image image') as [->|Himg].
  - rewrite dict_get_set_same.
    rewrite dict_get_set_other by congruence.
    destruct (dict_get String.eqb image' table); reflexivity.
  - rewrite dict_get_set_other by exact Himg. reflexivity.
Qed.

(** ** What a match captures *)

Lemma span_chars p s :
  forall_chars p (fst (span p s)) = true.
Proof.
  induction s as [|c s IH]; simpl.
  - reflexivity.
  - destruct (p c) eqn:E; simpl.
    + destruct (span p s) as [w r]; simpl in *. rewrite E; exact IH.
    + reflexivity.
Qed.

Lemma match_group_captures lit cls tail s g :
  match_group lit cls tail s = Some g ->
  g <> EmptyString /\ forall_chars cls g = true.
Proof.
  unfold match_group.
  destruct (drop_prefix lit s) as [r|]; [|discriminate].
  pose proof (span_chars cls r) as Hsp.
  destruct (span cls r) as [w r']; simpl in Hsp.
  destruct w as [|c w]; [discriminate|].
  destruct (drop_prefix tail r'); [|discriminate].
  intros [= <-]. split; [discriminate | exact Hsp].
Qed.

Lemma re_search_found {A : Type} (m : string -> option A) s g :
  re_search m s = Some g -> exists s', m s' = Some g.
Proof.
  induction s as [|c s IH]; simpl.
  - destruct (m EmptyString) eqn:E; [|discriminate].
    intros [= <-]; exists EmptyString; exact E.
  - destruct (m (String c s)) eqn:E.
    + intros [= <-]; exists (String c s); exact E.
    + exact IH.
Qed.

Lemma model_match_word line g :
  model_match line = Some g -> g <> EmptyString /\ forall_chars is_word g = true.
Proof.
  intro H. apply re_search_found in H. destruct H as [s' H].
  eapply match_group_captures; exact H.
Qed.

Lemma image_match_name line g :
  image_match line = Some g -> g <> EmptyString /\ forall_chars image_class g = true.
Proof.
  intro H. apply re_search_found in H. destruct H as [s' H].
  eapply match_group_captures; exact H.
Qed.


Lemma lower_char_word c : is_word c = true -> is_lower_word (lower_char c) = true.
Proof.
  destruct c as [[] [] [] [] [] [] [] []]; vm_compute; intro H;
    first [reflexivity | discriminate H].
Qed.

Lemma lower_char_idem c : lower_char (lower_char c) = lower_char c.
Proof. destruct c as [[] [] [] [] [] [] [] []]; reflexivity. Qed.

Lemma lower_word g :
  forall_chars is_word g = true -> forall_chars is_lower_word (lower g) = true.
Proof.
  induction g as [|c g IH]; simpl; [reflexivity|].
  intro H. apply andb_true_iff in H. destruct H as [Hc Hg].
  rewrite (lower_char_word c Hc); simpl. apply IH; exact Hg.
Qed.

Lemma lower_idem g : lower (lower g) = lower g.
Proof.
  induction g as [|c g IH]; simpl; [reflexivity|].
  rewrite lower_char_idem, IH; reflexivity.
Qed.

Lemma lower_nonempty g : g <> EmptyString -> lower g <> EmptyString.
Proof. destruct g; [congruence | discriminate]. Qed.

Lemma truthy_some s : s <> EmptyString -> truthy (Some s) = true.
Proof. destruct s; [congruence | reflexivity]. Qed.

Lemma truthy_inv o : truthy o = true -> exists s, o = Some s /\ s <> EmptyString.
Proof.
  destruct o as [[|c s]|]; simpl; try discriminate.
  intros _; exists (String c s); split; [reflexivity | discriminate].
Qed.

(** ** One line of the parser *)



Lemma parse_line_header st line g :
  model_match line = Some g ->
  parse_line st line = Ok (mk_state (results st) (current_image st) (Some (lower g))).
Proof. unfold parse_line; intros ->; reflexivity. Qed.

Lemma parse_line_announcement st line g :
  model_match line = None -> image_match line = Some g ->
  parse_line st line = Ok (mk_state (results st) (Some g) (current_model st)).
Proof. unfold parse_line; intros -> ->; reflexivity. Qed.

Lemma parse_line_scores st line score_str image model :
  plain line -> score_match line = Some score_str ->
  current_image st = Some image -> image <> EmptyString ->
  current_model st = Some model -> model <> EmptyString ->
  parse_line st line =
    (scores <- parse_scores score_str ;;
     Ok (mk_state (record_scores image model scores (results st))
                  (Some image) (Some model))).
Proof.
  intros [Hm Hi] Hs Hci Hin Hcm Hmn. unfold parse_line.
  rewrite Hm, Hi, Hs, Hci, Hcm.
  rewrite (truthy_some _ Hin), (truthy_some _ Hmn); reflexivity.
Qed.

Lemma parse_line_dropped st line :
  plain line ->
  truthy (current_image st) && truthy (current_model st) = false ->
  parse_line st line = Ok st.
Proof.
  intros [Hm Hi] Hkey. unfold parse_line. rewrite Hm, Hi.
  destruct (score_match line); [rewrite Hkey|]; reflexivity.
Qed.

Lemma parse_line_noise st line : noise line -> parse_line st line = Ok st.
Proof.
  intros [[Hm Hi] Hs]. unfold parse_line. rewrite Hm, Hi, Hs; reflexivity.
Qed.

Lemma parse_noise st lines :
  Forall noise lines -> foldM parse_line st lines = Ok st.
Proof.
  intro H. apply foldM_skip.
  eapply Forall_impl; [|exact H]. intros l Hl; apply parse_line_noise; exact Hl.
Qed.

(** Only a header sets the variant, only an announcement sets the image. *)
Lemma parse_line_keeps_model st st' line :
  model_match line = None -> parse_line st line = Ok st' ->
  current_model st' = current_model st.
Proof.
  unfold parse_line; intros ->.
  destruct (image_match line); [intros [= <-]; reflexivity|].
  destruct (score_match line); [|intros [= <-]; reflexivity].
  destruct (truthy (current_image st) && truthy (current_model st));
    [|intros [= <-]; reflexivity].
  destruct (parse_scores s); simpl; [intros [= <-]; reflexivity | discriminate].
Qed.

Lemma parse_line_keeps_image st st' line :
  (model_match line = None -> image_match line = None) ->
  parse_line st line = Ok st' ->
  current_image st' = current_image st.
Proof.
  unfold parse_line; intro Himg.
  destruct (model_match line); [intros [= <-]; reflexivity|].
  rewrite (Himg eq_refl).
  destruct (score_match line); [|intros [= <-]; reflexivity].
  destruct (truthy (current_image st) && truthy (current_model st));
    [|intros [= <-]; reflexivity].
  destruct (parse_scores s); simpl; [intros [= <-]; reflexivity | discriminate].
Qed.

Lemma parse_line_unkeyed st line st' :
  truthy (current_image st) && truthy (current_model st) = false ->
  parse_line st line = Ok st' -> results st' = results st.
Proof.
  unfold parse_line; intro Hkey.
  destruct (model_match line); [intros [= <-]; reflexivity|].
  destruct (image_match line); [intros [= <-]; reflexivity|].
  destruct (score_match line); [rewrite Hkey|]; intros [= <-]; reflexivity.
Qed.

Lemma parse_line_unkeyed_ok st line :
  truthy (current_image st) && truthy (current_model st) = false ->
  exists st', parse_line st line = Ok st'.
Proof.
  unfold parse_line; intro Hkey.
  destruct (model_match line); [eexists; reflexivity|].
  destruct (image_match line); [eexists; reflexivity|].
  destruct (score_match line); [rewrite Hkey|]; eexists; reflexivity.
Qed.

(** Until a header is seen there is no variant, no error and no record. *)
Lemma no_header_yet lines : forall st,
  current_model st = None ->
  Forall (fun l => model_match l = None) lines ->
  exists st', foldM parse_line st lines = Ok st'
              /\ current_model st' = None /\ results st' = results st.
Proof.
  induction lines as [|l lines IH]; intros st Hcm Hall; simpl.
  - exists st; split; [reflexivity | split; [exact Hcm | reflexivity]].
  - inversion Hall as [|? ? Hl Hrest]; subst.
    assert (Hkey : truthy (current_image st) && truthy (current_model st) = false)
      by (rewrite Hcm; apply andb_false_r).
    destruct (parse_line_unkeyed_ok st l Hkey) as [st1 Hst1].
    rewrite Hst1; simpl.
    pose proof (parse_line_keeps_model _ _ _ Hl Hst1) as Hcm1.
    pose proof (parse_line_unkeyed _ _ _ Hkey Hst1) as Hres1.
    rewrite Hcm in Hcm1.
    destruct (IH st1 Hcm1 Hrest) as [st' [Hf [Hcm' Hres']]].
    exists st'; repeat split; [exact Hf | exact Hcm' | congruence].
Qed.

(** Until an announcement is seen there is no image, no error and no record. *)
Lemma no_image_yet lines : forall st,
  current_image st = None ->
  Forall (fun l => model_match l = None -> image_match l = None) lines ->
  exists st', foldM parse_line st lines = Ok st'
              /\ current_image st' = None /\ results st' = results st.
Proof.
  induction lines as [|l lines IH]; intros st Hci Hall; simpl.
  - exists st; split; [reflexivity | split; [exact Hci | reflexivity]].
  - inversion Hall as [|? ? Hl Hrest]; subst.
    assert (Hkey : truthy (current_image st) && truthy (current_model st) = false)
      by (rewrite Hci; reflexivity).
    destruct (parse_line_unkeyed_ok st l Hkey) as [st1 Hst1].
    rewrite Hst1; simpl.
    pose proof (parse_line_keeps_image _ _ _ Hl Hst1) as Hci1.
    pose proof (parse_line_unkeyed _ _ _ Hkey Hst1) as Hres1.
    rewrite Hci in Hci1.
    destruct (IH st1 Hci1 Hrest) as [st' [Hf [Hci' Hres']]].
    exists st'; repeat split; [exact Hf | exact Hci' | congruence].
Qed.

(** C6.  A distribution line met before any model-variant header, or before
    any image announcement, is dropped without error: the lines up to and
    including it leave the parser in the state it had before the line, with
    an empty table, and the whole text yields exactly what it yields with
    that line removed. *)
Theorem distribution_before_header_dropped :
  forall (output_text : string) (pre post : list string) (line score_str : string),
    str_split LF output_text = pre ++ line :: post ->
    plain line ->
    score_match line = Some score_str ->
    (Forall (fun l => model_match l = None) pre \/
     Forall (fun l => model_match l = None -> image_match l = None) pre) ->
    (exists st, parse_lines pre = Ok st
                /\ parse_lines (pre ++ [line]) = Ok st
                /\ results st = [])
    /\ parse_results output_text
       = (st <- parse_lines (pre ++ post) ;; Ok (results st)).
Proof.
  intros output_text pre post line score_str Hsplit Hplain Hscore Hpre.
  assert (Hst : exists st, parse_lines pre = Ok st
                  /\ truthy (current_image st) && truthy (current_model st) = false
                  /\ results st = []).
  { destruct Hpre as [Hh|Hi].
    - destruct (no_header_yet pre initial_state eq_refl Hh) as [st [Hf [Hcm Hres]]].
      exists st; repeat split; [exact Hf | rewrite Hcm; apply andb_false_r | exact Hres].
    - destruct (no_image_yet pre initial_state eq_refl Hi) as [st [Hf [Hci Hres]]].
      exists st; repeat split; [exact Hf | rewrite Hci; reflexivity | exact Hres]. }
  destruct Hst as [st [Hf [Hkey Hres]]].
  pose proof (parse_line_dropped st line Hplain Hkey) as Hdrop.
  split.
  - exists st; repeat split; [exact Hf | | exact Hres].
    unfold parse_lines in *. rewrite foldM_app, Hf; simpl. rewrite Hdrop; reflexivity.
  - unfold parse_results, parse_lines in *. rewrite Hsplit.
    rewrite !foldM_app, Hf; simpl. rewrite Hdrop; reflexivity.
Qed.

(** Running the loop over noise followed by one more line. *)
Lemma parse_noise_then st noise_lines line rest :
  Forall noise noise_lines ->
  foldM parse_line st (noise_lines ++ line :: rest)
  = (st' <- parse_line st line ;; foldM parse_line st' rest).
Proof.
  intro Hn. rewrite foldM_app, (parse_noise st noise_lines Hn). reflexivity.
Qed.

(** C7.  One header, then two announcements each followed by its own
    distribution line (with any amount of unmatched lines around them): both
    distributions are filed under the variant of that one header; the second
    announcement alone moves the attribution to the second image. *)
Theorem variant_persists_across_images :
  forall (output_text header announce1 scores1 announce2 scores2 : string)
         (n0 n1 n2 n3 n4 n5 : list string)
         (variant image1 image2 str1 str2 : string) (dist1 dist2 : distribution),
    str_split LF output_text
      = n0 ++ header :: n1 ++ announce1 :: n2 ++ scores1
           :: n3 ++ announce2 :: n4 ++ scores2 :: n5 ->
    Forall noise (n0 ++ n1 ++ n2 ++ n3 ++ n4 ++ n5) ->
    model_match header = Some variant ->
    model_match announce1 = None -> image_match announce1 = Some image1 ->
    plain scores1 -> score_match scores1 = Some str1 ->
    parse_scores str1 = Ok dist1 ->
    model_match announce2 = None -> image_match announce2 = Some image2 ->
    plain scores2 -> score_match scores2 = Some str2 ->
    parse_scores str2 = Ok dist2 ->
    exists table,
      parse_results output_text = Ok table
      /\ table = record_scores image2 (lower variant) dist2
                   (record_scores image1 (lower variant) dist1 [])
      /\ lookup image2 (lower variant) table = Some dist2
      /\ (image1 <> image2 -> lookup image1 (lower variant) table = Some dist1).
Proof.
  intros output_text header announce1 scores1 announce2 scores2
         n0 n1 n2 n3 n4 n5 variant image1 image2 str1 str2 dist1 dist2
         Hsplit Hnoise Hh Ha1m Ha1 Hs1p Hs1 Hd1 Ha2m Ha2 Hs2p Hs2 Hd2.
  repeat (apply Forall_app in Hnoise;
          let H := fresh "Hn" in destruct Hnoise as [H Hnoise]).
  destruct (model_match_word _ _ Hh) as [Hv _].
  apply lower_nonempty in Hv.
  destruct (image_match_name _ _ Ha1) as [Hi1 _].
  destruct (image_match_name _ _ Ha2) as [Hi2 _].
  eexists. split; [|split; [reflexivity|split]].
  - unfold parse_results, parse_lines. rewrite Hsplit.
    rewrite parse_noise_then by assumption.
    rewrite (parse_line_header _ _ _ Hh); simpl bind.
    rewrite parse_noise_then by assumption.
    rewrite (parse_line_announcement _ _ _ Ha1m Ha1); simpl bind.
    rewrite parse_noise_then by assumption.
    rewrite (parse_line_scores _ _ _ image1 (lower variant) Hs1p Hs1)
      by (try reflexivity; assumption).
    rewrite Hd1; simpl bind.
    rewrite parse_noise_then by assumption.
    rewrite (parse_line_announcement _ _ _ Ha2m Ha2); simpl bind.
    rewrite parse_noise_then by assumption.
    rewrite (parse_line_scores _ _ _ image2 (lower variant) Hs2p Hs2)
      by (try reflexivity; assumption).
    rewrite Hd2; simpl bind.
    rewrite parse_noise by assumption. reflexivity.
  - apply lookup_record_same.
  - intro Hne. rewrite lookup_record_other by congruence.
    apply lookup_record_same.
Qed.

(** ** Invariants of the parser loop *)


Lemma dict_set_Forall {V : Type} (P : string * V -> Prop) k v (d : list (string * V)) :
  (forall k', P (k', v)) -> Forall P d -> Forall P (dict_set String.eqb k v d).
Proof.
  intros Hnew. induction 1 as [|[k' v'] d Hx Hd IH]; simpl.
  - constructor; [apply Hnew | constructor].
  - destruct (String.eqb k k'); constructor;
      first [apply Hnew | assumption].
Qed.

Lemma record_scores_well_keyed image model scores table :
  well_keyed table -> well_keyed (record_scores image model scores table).
Proof.
  intros [Hout Hin]. unfold record_scores. split.
  - apply dict_set_keys_NoDup; exact Hout.
  - apply dict_set_Forall; [|exact Hin]. intros k'; simpl.
    apply dict_set_keys_NoDup.
    destruct (dict_get String.eqb image table) as [inner|] eqn:E.
    + apply dict_get_In in E. rewrite Forall_forall in Hin. exact (Hin _ E).
    + constructor.
Qed.



Lemma initial_state_ok : state_ok initial_state.
Proof.
  repeat split; simpl; try discriminate; constructor.
Qed.

Lemma parse_line_ok st line st' :
  state_ok st -> parse_line st line = Ok st' -> state_ok st'.
Proof.
  intros [Hwk [Hci Hcm]]. unfold parse_line.
  destruct (model_match line) as [g|] eqn:Hm.
  { intros [= <-]. split; [exact Hwk | split; simpl; [exact Hci|]].
    destruct (model_match_word _ _ Hm) as [Hg _].
    apply lower_nonempty in Hg. congruence. }
  destruct (image_match line) as [g|] eqn:Hi.
  { intros [= <-]. split; [exact Hwk | split; simpl; [|exact Hcm]].
    destruct (image_match_name _ _ Hi) as [Hg _]. congruence. }
  destruct (score_match line) as [score_str|];
    [|intros [= <-]; split; [exact Hwk | split; assumption]].
  destruct (truthy (current_image st) && truthy (current_model st));
    [|intros [= <-]; split; [exact Hwk | split; assumption]].
  destruct (parse_scores score_str) as [scores|e]; simpl; [|discriminate].
  intros [= <-]. split; simpl.
  - apply record_scores_well_keyed; exact Hwk.
  - split; assumption.
Qed.

Lemma parse_lines_ok lines : forall st st',
  state_ok st -> foldM parse_line st lines = Ok st' -> state_ok st'.
Proof.
  induction lines as [|l lines IH]; intros st st' Hok; simpl.
  - intros [= <-]; exact Hok.
  - destruct (parse_line st l) as [st1|e] eqn:E; simpl; [|discriminate].
    apply IH. eapply parse_line_ok; eassumption.
Qed.


Lemma parse_line_keeps_lookup st line st' image model :
  keys_nonempty st ->
  parse_line st line = Ok st' ->
  ~ writes_to st line image model ->
  lookup image model (results st') = lookup image model (results st).
Proof.
  intros [Hci Hcm]. unfold parse_line, writes_to, plain.
  destruct (model_match line) as [g|] eqn:Hm; [intros [= <-]; reflexivity|].
  destruct (image_match line) as [g|] eqn:Hi; [intros [= <-]; reflexivity|].
  destruct (score_match line) as [score_str|] eqn:Hs; [|intros [= <-]; reflexivity].
  destruct (truthy (current_image st) && truthy (current_model st)) eqn:Hkey;
    [|intros [= <-]; reflexivity].
  apply andb_true_iff in Hkey. destruct Hkey as [Hti Htm].
  apply truthy_inv in Hti. destruct Hti as [i [Hi' _]].
  apply truthy_inv in Htm. destruct Htm as [m [Hm' _]].
  destruct (parse_scores score_str) as [scores|e]; simpl; [|discriminate].
  intros [= <-] Hnw; simpl.
  rewrite Hi', Hm'; simpl. apply lookup_record_other.
  intros [= -> ->]. apply Hnw. repeat split; try assumption. discriminate.
Qed.

Lemma later_lines_keep_lookup image model post : forall st1 st_end,
  state_ok st1 ->
  foldM parse_line st1 post = Ok st_end ->
  (forall mid later rest st2,
      post = mid ++ later :: rest ->
      foldM parse_line st1 mid = Ok st2 ->
      ~ writes_to st2 later image model) ->
  lookup image model (results st_end) = lookup image model (results st1).
Proof.
  induction post as [|l post IH]; intros st1 st_end Hok; simpl.
  - intros [= <-] _; reflexivity.
  - destruct (parse_line st1 l) as [st1'|e] eqn:E; simpl; [|discriminate].
    intros Hrun Hlater.
    rewrite (IH st1' st_end); [| eapply parse_line_ok; eassumption | exact Hrun |].
    + eapply parse_line_keeps_lookup; [apply Hok | exact E |].
      apply (Hlater [] l post st1); reflexivity.
    + intros mid later rest st2 -> Hmid.
      apply (Hlater (l :: mid) later rest st2); [reflexivity|].
      simpl. rewrite E; simpl. exact Hmid.
Qed.

(** C8.  When a distribution line is the last one of the text to be filed
    under its (image, variant) key, the table returned holds that line's
    distribution under the key, and no other distribution sits under the key:
    whatever earlier lines had put there is gone. *)
Theorem last_occurrence_wins :
  forall (output_text : string) (pre post : list string)
         (line score_str image model : string) (st : parser_state),
    str_split LF output_text = pre ++ line :: post ->
    parse_lines pre = Ok st ->
    current_image st = Some image ->
    current_model st = Some model ->
    plain line ->
    score_match line = Some score_str ->
    (forall mid later rest st2,
        post = mid ++ later :: rest ->
        parse_lines (pre ++ line :: mid) = Ok st2 ->
        ~ writes_to st2 later image model) ->
    forall table,
      parse_results output_text = Ok table ->
      exists scores,
        parse_scores score_str = Ok scores
        /\ lookup image model table = Some scores
        /\ (forall inner d,
               In (image, inner) table -> In (model, d) inner -> d = scores).
Proof.
  intros output_text pre post line score_str image model st
         Hsplit Hpre Hci Hcm Hplain Hscore Hlast table Hparse.
  unfold parse_results, parse_lines in *. rewrite Hsplit in Hparse.
  rewrite foldM_app, Hpre in Hparse; simpl in Hparse.
  pose proof (parse_lines_ok _ _ _ initial_state_ok Hpre) as Hok.
  assert (Hin : image <> EmptyString) by (destruct Hok as [_ [H _]]; congruence).
  assert (Hmn : model <> EmptyString) by (destruct Hok as [_ [_ H]]; congruence).
  pose proof (parse_line_scores st line score_str image model
                Hplain Hscore Hci Hin Hcm Hmn) as Hstep.
  destruct (parse_line st line) as [st1|e] eqn:E; simpl in Hparse; [|discriminate].
  destruct (parse_scores score_str) as [scores|e]; simpl in Hstep; [|discriminate].
  injection Hstep as Hst1.
  destruct (foldM parse_line st1 post) as [st_end|e] eqn:Hpost; simpl in Hparse;
    [|discriminate].
  injection Hparse as <-.
  assert (Hok1 : state_ok st1) by (eapply parse_line_ok; eassumption).
  assert (Hlook : lookup image model (results st_end) = Some scores).
  { rewrite (later_lines_keep_lookup image model post st1 st_end Hok1 Hpost).
    - rewrite Hst1; simpl. apply lookup_record_same.
    - intros mid later rest st2 Hp Hmid. apply (Hlast mid later rest st2 Hp).
      rewrite foldM_app, Hpre; simpl. rewrite E; simpl. exact Hmid. }
  exists scores. split; [reflexivity|]. split; [exact Hlook|].
  intros inner d Hinner Hd.
  destruct (parse_lines_ok _ _ _ Hok1 Hpost) as [[Hout Hinn] _].
  unfold lookup in Hlook.
  rewrite (dict_In_get_NoDup _ _ _ Hout Hinner) in Hlook.
  rewrite Forall_forall in Hinn. specialize (Hinn _ Hinner); simpl in Hinn.
  rewrite (dict_In_get_NoDup _ _ _ Hinn Hd) in Hlook. congruence.
Qed.

(** ** Where variant names come from *)

Lemma parse_line_provenance lines st line st' :
  In line lines ->
  variants_from_headers lines st ->
  parse_line st line = Ok st' ->
  variants_from_headers lines st'.
Proof.
  intros Hline [Hcur Htab]. unfold parse_line.
  destruct (model_match line) as [g|] eqn:Hm.
  { intros [= <-]. split; simpl; [|exact Htab].
    intros m [= <-]. exists line, g. repeat split; assumption. }
  destruct (image_match line) as [g|]; [intros [= <-]; split; assumption|].
  destruct (score_match line) as [score_str|]; [|intros [= <-]; split; assumption].
  destruct (truthy (current_image st) && truthy (current_model st)) eqn:Hkey;
    [|intros [= <-]; split; assumption].
  apply andb_true_iff in Hkey. destruct Hkey as [_ Htm].
  apply truthy_inv in Htm. destruct Htm as [m [Hcm _]].
  destruct (parse_scores score_str) as [scores|e]; simpl; [|discriminate].
  intros [= <-]. split; simpl; [exact Hcur|].
  intros image inner v d Hin Hv. unfold record_scores in Hin.
  apply dict_set_In in Hin. destruct Hin as [[_ ->]|Hin]; [|eapply Htab; eassumption].
  apply dict_set_In in Hv. destruct Hv as [[-> _]|Hv].
  - apply Hcur. rewrite Hcm; reflexivity.
  - destruct (dict_get String.eqb (unwrap (current_image st)) (results st))
      as [inner0|] eqn:E; [|destruct Hv].
    apply dict_get_In in E. eapply Htab; eassumption.
Qed.

Lemma parse_lines_provenance lines rest : forall st st',
  (forall l, In l rest -> In l lines) ->
  variants_from_headers lines st ->
  foldM parse_line st rest = Ok st' ->
  variants_from_headers lines st'.
Proof.
  induction rest as [|l rest IH]; intros st st' Hsub Hinv; simpl.
  - intros [= <-]; exact Hinv.
  - destruct (parse_line st l) as [st1|e] eqn:E; simpl; [|discriminate].
    apply IH.
    + intros l' Hl'; apply Hsub; right; exact Hl'.
    + eapply parse_line_provenance; [apply Hsub; left; reflexivity | exact Hinv | exact E].
Qed.

(** C10, as the code has it.  Every variant key of the table the parser
    returns is the lower-cased word captured from a header line of the text:
    a non-empty string of lower-case letters, digits and underscores.  The
    parser does not restrict it to the two enumerated names. *)
Theorem variant_is_header_word :
  forall (output_text : string) (table : score_table)
         (image variant : string) (inner : variants),
    parse_results output_text = Ok table ->
    In (image, inner) table ->
    In variant (dict_keys inner) ->
    from_header (str_split LF output_text) variant
    /\ variant <> EmptyString
    /\ forall_chars is_lower_word variant = true.
Proof.
  intros output_text table image variant inner Hparse Himage Hvariant.
  unfold parse_results, parse_lines in Hparse.
  destruct (foldM parse_line initial_state (str_split LF output_text))
    as [st|e] eqn:Hrun; simpl in Hparse; [|discriminate].
  injection Hparse as <-.
  assert (Hinv : variants_from_headers (str_split LF output_text) st).
  { eapply parse_lines_provenance; [| |exact Hrun].
    - intros l Hl; exact Hl.
    - split; simpl; [discriminate | intros ? ? ? ? []]. }
  unfold dict_keys in Hvariant. apply in_map_iff in Hvariant.
  destruct Hvariant as [[v d] [Hv Hd]]; simpl in Hv; subst v.
  destruct Hinv as [_ Htab].
  pose proof (Htab image inner variant d Himage Hd) as Hfrom.
  split; [exact Hfrom|].
  destruct Hfrom as [line [g [_ [Hm ->]]]].
  destruct (model_match_word _ _ Hm) as [Hne Hw].
  split; [apply lower_nonempty; exact Hne | apply lower_word; exact Hw].
Qed.

Lemma distribution_before_header_dropped_witness :
  (exists st, parse_lines [announce_photo1] = Ok st
              /\ parse_lines ([announce_photo1] ++ [uniform_line]) = Ok st
              /\ results st = [])
  /\ parse_results capture_early_scores
     = (st <- parse_lines ([announce_photo1] ++ [header_aesthetic]) ;;
        Ok (results st)).
Proof.
  apply (distribution_before_header_dropped capture_early_scores
           [announce_photo1] [header_aesthetic] uniform_line
           "0.1,0.1,0.1,0.1,0.1,0.1,0.1,0.1,0.1,0.1").
  - vm_compute; reflexivity.
  - split; vm_compute; reflexivity.
  - vm_compute; reflexivity.
  - left. constructor; [vm_compute; reflexivity | constructor].
Defined.

Lemma variant_persists_across_images_witness :
  exists table,
    parse_results capture_two_images = Ok table
    /\ table = record_scores "photo2.jpg" (lower "aesthetic") peaked
                 (record_scores "photo1.jpg" (lower "aesthetic") uniform [])
    /\ lookup "photo2.jpg" (lower "aesthetic") table = Some peaked
    /\ ("photo1.jpg" <> "photo2.jpg" ->
        lookup "photo1.jpg" (lower "aesthetic") table = Some uniform).
Proof.
  apply (variant_persists_across_images capture_two_images
           header_aesthetic announce_photo1 uniform_line announce_photo2 peaked_line
           ["Loading model"] [] [] [] [] []
           "aesthetic" "photo1.jpg" "photo2.jpg"
           "0.1,0.1,0.1,0.1,0.1,0.1,0.1,0.1,0.1,0.1"
           "0, 0, 0, 0, 0.5, 0.5, 0, 0, 0, 0").
  - vm_compute; reflexivity.
  - constructor; [|constructor]. repeat split; vm_compute; reflexivity.
  - vm_compute; reflexivity.
  - vm_compute; reflexivity.
  - vm_compute; reflexivity.
  - split; vm_compute; reflexivity.
  - vm_compute; reflexivity.
  - vm_compute; reflexivity.
  - vm_compute; reflexivity.
  - vm_compute; reflexivity.
  - split; vm_compute; reflexivity.
  - vm_compute; reflexivity.
  - vm_compute; reflexivity.
Defined.

Lemma last_occurrence_wins_witness :
  exists scores,
    parse_scores "0, 0, 0, 0, 0.5, 0.5, 0, 0, 0, 0" = Ok scores
    /\ lookup "photo1.jpg" "aesthetic"
         [("photo1.jpg", [("aesthetic", peaked)]);
          ("photo2.jpg", [("aesthetic", uniform)])] = Some scores
    /\ (forall inner d,
           In ("photo1.jpg", inner)
              [("photo1.jpg", [("aesthetic", peaked)]);
               ("photo2.jpg", [("aesthetic", uniform)])] ->
           In ("aesthetic", d) inner -> d = scores).
Proof.
  apply (last_occurrence_wins capture_rerun
           [header_aesthetic; announce_photo1; uniform_line]
           [announce_photo2; uniform_line]
           peaked_line "0, 0, 0, 0, 0.5, 0.5, 0, 0, 0, 0"
           "photo1.jpg" "aesthetic"
           (mk_state [("photo1.jpg", [("aesthetic", uniform)])]
                     (Some "photo1.jpg") (Some "aesthetic"))).
  - vm_compute; reflexivity.
  - vm_compute; reflexivity.
  - reflexivity.
  - reflexivity.
  - split; vm_compute; reflexivity.
  - vm_compute; reflexivity.
  - intros mid later rest st2 Hpost Hrun [[_ Himg] [_ [Hci _]]].
    destruct mid as [|m1 [|m2 mid]]; simpl in Hpost.
    + injection Hpost as <- _. vm_compute in Himg. discriminate Himg.
    + injection Hpost as <- <- _. vm_compute in Hrun.
      injection Hrun as <-. simpl in Hci. discriminate Hci.
    + injection Hpost as _ _ Hnil. destruct mid; discriminate Hnil.
  - vm_compute; reflexivity.
Defined.

(** C10, as stated, fails: a header naming any other word opens a variant of
    that name. *)
Lemma variant_outside_enumeration :
  ~ (forall (output_text : string) (table : score_table)
            (image variant : string) (inner : variants),
        parse_results output_text = Ok table ->
        In (image, inner) table ->
        In variant (dict_keys inner) ->
        variant = "aesthetic" \/ variant = "technical").
Proof.
  intro Hclaim.
  destruct (Hclaim capture_color [("photo1.jpg", [("color", uniform)])]
                   "photo1.jpg" "color" [("color", uniform)]) as [H|H].
  - vm_compute; reflexivity.
  - left; reflexivity.
  - left; reflexivity.
  - discriminate H.
  - discriminate H.
Qed.

Lemma variant_is_header_word_witness :
  from_header (str_split LF capture_color) "color"
  /\ "color" <> EmptyString
  /\ forall_chars is_lower_word "color" = true.
Proof.
  apply (variant_is_header_word capture_color
           [("photo1.jpg", [("color", uniform)])]
           "photo1.jpg" "color" [("color", uniform)]).
  - vm_compute; reflexivity.
  - left; reflexivity.
  - left; reflexivity.
Defined.

(** ** Distribution payloads *)

Lemma py_float_error token e : py_float token = Err e -> e = ValueError.
Proof.
  unfold py_float.
  destruct (span is_digit (rstrip is_c_space (lstrip is_c_space token)))
    as [int_part rest].
  destruct rest as [|c rest'].
  - destruct int_part; [intros [= <-]; reflexivity | discriminate].
  - destruct (Ascii.eqb c "."); [|intros [= <-]; reflexivity].
    destruct (span is_digit rest') as [frac_part junk].
    destruct junk; [|intros [= <-]; reflexivity].
    destruct int_part, frac_part; first [discriminate | intros [= <-]; reflexivity].
Qed.

Lemma mapM_error {A B : Type} (f : A -> result B) (xs : list A) (e : exn) :
  mapM f xs = Err e -> exists x, In x xs /\ f x = Err e.
Proof.
  induction xs as [|x xs IH]; simpl; [discriminate|].
  destruct (f x) as [y|e'] eqn:E; simpl.
  - destruct (mapM f xs) as [ys|e'']; simpl; [discriminate|].
    intros [= ->]. destruct (IH eq_refl) as [x' [Hin Hx']].
    exists x'; split; [right; exact Hin | exact Hx'].
  - intros [= ->]. exists x; split; [left; reflexivity | exact E].
Qed.

Lemma parse_scores_error score_str e :
  parse_scores score_str = Err e ->
  e = ValueError
  /\ exists token, In token (str_split "," score_str)
                   /\ py_float (strip token) = Err ValueError.
Proof.
  unfold parse_scores. intro H. apply mapM_error in H.
  destruct H as [token [Hin Htok]].
  pose proof (py_float_error _ _ Htok) as ->.
  split; [reflexivity | exists token; split; assumption].
Qed.


(** A line the score pattern matches, met while an image and a variant are
    set.  When every comma-separated token of the captured payload reads as a
    number, the numbers are recorded under the current key, one per token and
    however many there are, and the loop goes on with the following lines.
    When some token does not read as a number, the conversion raises
    [ValueError] and the whole text yields no table. *)
Lemma matched_payload_recorded_or_fatal :
  forall (output_text : string) (pre post : list string)
         (line score_str image model : string) (st : parser_state),
    str_split LF output_text = pre ++ line :: post ->
    parse_lines pre = Ok st ->
    current_image st = Some image ->
    current_model st = Some model ->
    plain line ->
    score_match line = Some score_str ->
    match parse_scores score_str with
    | Ok scores =>
        List.length scores = List.length (str_split "," score_str)
        /\ (exists st1, parse_lines (pre ++ [line]) = Ok st1
                        /\ lookup image model (results st1) = Some scores
                        /\ parse_results output_text
                           = (st2 <- foldM parse_line st1 post ;; Ok (results st2)))
    | Err e =>
        e = ValueError
        /\ (exists token, In token (str_split "," score_str)
                          /\ py_float (strip token) = Err ValueError)
        /\ parse_results output_text = Err ValueError
    end.
Proof.
  intros output_text pre post line score_str image model st
         Hsplit Hpre Hci Hcm Hplain Hscore.
  pose proof (parse_lines_ok _ _ _ initial_state_ok Hpre) as [_ [Hi Hm]].
  assert (Hin : image <> EmptyString) by congruence.
  assert (Hmn : model <> EmptyString) by congruence.
  pose proof (parse_line_scores st line score_str image model
                Hplain Hscore Hci Hin Hcm Hmn) as Hstep.
  unfold parse_results, parse_lines in *. rewrite Hsplit.
  destruct (parse_scores score_str) as [scores|e] eqn:Hps; simpl in Hstep.
  - split; [unfold parse_scores in Hps; eapply mapM_length; exact Hps|].
    eexists. split; [|split].
    + rewrite foldM_app, Hpre; simpl. rewrite Hstep; reflexivity.
    + simpl. apply lookup_record_same.
    + rewrite foldM_app, Hpre; simpl. rewrite Hstep; reflexivity.
  - destruct (parse_scores_error _ _ Hps) as [-> Htok].
    split; [reflexivity|]. split; [exact Htok|].
    rewrite foldM_app, Hpre; simpl. rewrite Hstep; reflexivity.
Qed.


(** ** Which bracketed payloads the score pattern lets through *)

Lemma str_app_assoc (a b c : string) : ((a ++ b) ++ c = a ++ (b ++ c))%string.
Proof. induction a as [|x a IH]; simpl; [reflexivity | rewrite IH; reflexivity]. Qed.

Lemma re_search_cons {A : Type} (m : string -> option A) c s :
  re_search m (String c s)
  = match m (String c s) with
    | Some g => Some g
    | None => re_search m s
    end.
Proof. reflexivity. Qed.

Lemma drop_prefix_cons a lit c s :
  drop_prefix (String a lit) (String c s)
  = if Ascii.eqb a c then drop_prefix lit s else None.
Proof. reflexivity. Qed.

Lemma drop_prefix_app lit r : drop_prefix lit (lit ++ r)%string = Some r.
Proof.
  induction lit as [|a lit IH]; simpl; [reflexivity|].
  rewrite Ascii.eqb_refl. exact IH.
Qed.

Lemma drop_prefix_sound lit : forall s r,
  drop_prefix lit s = Some r -> s = (lit ++ r)%string.
Proof.
  induction lit as [|a lit IH]; intros s r; simpl.
  - intros [= ->]; reflexivity.
  - destruct s as [|b s]; [discriminate|].
    destruct (Ascii.eqb_spec a b) as [->|]; [|discriminate].
    intro H. rewrite (IH s r H). reflexivity.
Qed.

Lemma forall_chars_app p a b :
  forall_chars p (a ++ b)%string = forall_chars p a && forall_chars p b.
Proof.
  induction a as [|c a IH]; simpl; [reflexivity|].
  rewrite IH. apply andb_assoc.
Qed.

Lemma forall_chars_impl (p q : ascii -> bool) s :
  (forall c, p c = true -> q c = true) ->
  forall_chars p s = true -> forall_chars q s = true.
Proof.
  intro Hpq. induction s as [|c s IH]; simpl; [reflexivity|].
  intro H. apply andb_true_iff in H. destruct H as [Hc Hs].
  rewrite (Hpq c Hc), (IH Hs). reflexivity.
Qed.

Lemma match_group_eq lit cls tail s r g r' :
  drop_prefix lit s = Some r ->
  span cls r = (g, r') ->
  match_group lit cls tail s
  = match g with
    | EmptyString => None
    | _ => match drop_prefix tail r' with
           | Some _ => Some g
           | None => None
           end
    end.
Proof. intros Hd Hs. unfold match_group. rewrite Hd, Hs. reflexivity. Qed.

(** Where the literal cannot start, the pattern cannot match. *)
Lemma match_group_wrong_start a lit cls tail c s :
  Ascii.eqb a c = false ->
  match_group (String a lit) cls tail (String c s) = None.
Proof. intro H. unfold match_group. simpl. rewrite H. reflexivity. Qed.

Lemma re_search_skip a lit cls tail skip rest :
  forall_chars (fun c => negb (Ascii.eqb a c)) skip = true ->
  re_search (match_group (String a lit) cls tail) (skip ++ rest)
  = re_search (match_group (String a lit) cls tail) rest.
Proof.
  induction skip as [|c skip IH]; simpl append; intro H; [reflexivity|].
  simpl in H. apply andb_true_iff in H. destruct H as [Hc Hs].
  apply negb_true_iff in Hc.
  rewrite re_search_cons, (match_group_wrong_start a lit cls tail c _ Hc).
  apply IH. exact Hs.
Qed.

(** A text without some character of the literal holds no match at all. *)
Lemma re_search_without (p : ascii -> bool) lit cls tail s :
  forall_chars p lit = false ->
  forall_chars p s = true ->
  re_search (match_group lit cls tail) s = None.
Proof.
  intro Hlit.
  assert (Hnone : forall t, forall_chars p t = true ->
                            match_group lit cls tail t = None).
  { intros t Ht. unfold match_group.
    destruct (drop_prefix lit t) as [r|] eqn:E; [|reflexivity].
    apply drop_prefix_sound in E. subst t.
    rewrite forall_chars_app, Hlit in Ht. discriminate Ht. }
  induction s as [|c s IH]; intro Hs.
  - simpl. rewrite (Hnone EmptyString Hs). reflexivity.
  - rewrite re_search_cons, (Hnone _ Hs). apply IH.
    simpl in Hs. apply andb_true_iff in Hs. apply Hs.
Qed.

Lemma span_app_stop p a c r :
  forall_chars p a = true -> p c = false ->
  span p (a ++ String c r) = (a, String c r).
Proof.
  intros Ha Hc. induction a as [|x a IH]; simpl.
  - rewrite Hc. reflexivity.
  - simpl in Ha. apply andb_true_iff in Ha. destruct Ha as [Hx Ha].
    rewrite Hx, (IH Ha). reflexivity.
Qed.

Lemma first_bad_char p s :
  forall_chars p s = false ->
  exists a c r, s = (a ++ String c r)%string
                /\ forall_chars p a = true /\ p c = false.
Proof.
  induction s as [|x s IH]; simpl; [discriminate|].
  destruct (p x) eqn:Hx; simpl.
  - intro H. destruct (IH H) as [a [c [r [-> [Ha Hc]]]]].
    exists (String x a), c, r. simpl. rewrite Hx, Ha. repeat split. exact Hc.
  - intros _. exists EmptyString, x, s. repeat split. exact Hx.
Qed.

(** The score pattern on a line [Predicted score distribution: [payload]rest]:
    it captures the payload when the payload is not empty and holds digits,
    dots, white space and commas only, and does not match otherwise. *)
Lemma score_match_distribution_line payload rest :
  bracket_free payload = true ->
  no_open_bracket rest = true ->
  score_match (distribution_line payload rest)
  = if payload_matches payload then Some payload else None.
Proof.
  intros Hfree Hrest. unfold score_match.
  set (m := match_group "Predicted score distribution: [" score_class "]").
  set (X := (payload ++ "]" ++ rest)%string).
  assert (HX : no_open_bracket X = true).
  { unfold X, no_open_bracket. rewrite forall_chars_app. apply andb_true_iff. split.
    - eapply forall_chars_impl; [|exact Hfree].
      intros c Hc. apply andb_true_iff in Hc. apply Hc.
    - exact Hrest. }
  assert (Hlater : re_search m ("redicted score distribution: [" ++ X) = None).
  { unfold m. rewrite re_search_skip by reflexivity.
    apply (re_search_without (fun c => negb (Ascii.eqb c OPEN_BRACKET)));
      [reflexivity | exact HX]. }
  change (distribution_line payload rest)
    with (String "P" ("redicted score distribution: [" ++ X)).
  rewrite re_search_cons, Hlater.
  change (String "P" ("redicted score distribution: [" ++ X))
    with ("Predicted score distribution: [" ++ X)%string.
  assert (Hdrop : drop_prefix "Predicted score distribution: ["
                    ("Predicted score distribution: [" ++ X) = Some X)
    by apply drop_prefix_app.
  assert (Hpm : payload_matches payload
                = match payload with
                  | EmptyString => false
                  | _ => forall_chars score_class payload
                  end) by reflexivity.
  destruct (forall_chars score_class payload) eqn:Hcls.
  - assert (Hspan : span score_class X = (payload, String "]" rest)).
    { unfold X. apply span_app_stop; [exact Hcls | reflexivity]. }
    unfold m. rewrite (match_group_eq _ _ _ _ X payload _ Hdrop Hspan), Hpm.
    destruct payload; reflexivity.
  - assert (Hfalse : payload_matches payload = false)
      by (rewrite Hpm; destruct payload; reflexivity).
    rewrite Hfalse.
    destruct (first_bad_char _ _ Hcls) as [a [c [r [Heq [Ha Hc]]]]].
    assert (Hnc : Ascii.eqb "]" c = false).
    { unfold bracket_free in Hfree. rewrite Heq, forall_chars_app in Hfree.
      apply andb_true_iff in Hfree. destruct Hfree as [_ Hfree].
      simpl in Hfree. apply andb_true_iff in Hfree. destruct Hfree as [Hfree _].
      apply andb_true_iff in Hfree. destruct Hfree as [_ Hfree].
      apply negb_true_iff in Hfree. rewrite Ascii.eqb_sym. exact Hfree. }
    assert (Hspan : span score_class X = (a, String c (r ++ "]" ++ rest))).
    { unfold X. rewrite Heq, str_app_assoc. simpl append.
      apply span_app_stop; assumption. }
    unfold m. rewrite (match_group_eq _ _ _ _ X a _ Hdrop Hspan).
    destruct a; [reflexivity|].
    rewrite drop_prefix_cons, Hnc. reflexivity.
Qed.



(** ** Mean and dispersion *)

Lemma np_mul_ranks (d : distribution) :
  List.length d = 10%nat -> np_mul d ranks = Ok (zip_with Qmult d ranks).
Proof. intro H. unfold np_mul. rewrite H. reflexivity. Qed.

Lemma np_mul_same_length (a b : list Q) :
  List.length a = List.length b -> np_mul a b = Ok (zip_with Qmult a b).
Proof. intro H. unfold np_mul. rewrite H, Nat.eqb_refl. reflexivity. Qed.

Lemma weighted_sum_nonneg (a b : list Q) :
  Forall (fun x => 0 <= x)%Q a -> Forall (fun x => 0 <= x)%Q b ->
  (0 <= np_sum (zip_with Qmult a b))%Q.
Proof.
  intro Ha. revert b. induction Ha as [|x a Hx Ha IH]; intros b Hb; simpl.
  - apply Qle_refl.
  - destruct Hb as [|y b Hy Hb]; simpl; [apply Qle_refl|].
    specialize (IH b Hb). pose proof (Qmult_le_0_compat x y Hx Hy). Lqa.lra.
Qed.

Lemma weighted_sum_zero (a b : list Q) :
  Forall (fun x => x == 0)%Q a -> (np_sum (zip_with Qmult a b) == 0)%Q.
Proof.
  intro Ha. revert b. induction Ha as [|x a Hx Ha IH]; intros b; simpl.
  - reflexivity.
  - destruct b as [|y b]; simpl; [reflexivity|].
    rewrite (IH b), Hx. Lqa.lra.
Qed.

Lemma weighted_sum_scale (c : Q) (a b : list Q) :
  (np_sum (zip_with Qmult (map (Qmult c) a) b)
   == c * np_sum (zip_with Qmult a b))%Q.
Proof.
  revert b. induction a as [|x a IH]; intros b; simpl.
  - Lqa.lra.
  - destruct b as [|y b]; simpl; [Lqa.lra|].
    rewrite (IH b). ring.
Qed.

Lemma squares_nonneg (mean : Q) (rs : list Q) :
  Forall (fun x => 0 <= x)%Q (map (fun r => ((r - mean) * (r - mean))%Q) rs).
Proof.
  induction rs as [|r rs IH]; simpl; constructor; [|exact IH].
  generalize (r - mean)%Q; intro x.
  destruct (Qlt_le_dec x 0) as [Hneg|Hpos].
  - setoid_replace (x * x)%Q with ((- x) * (- x))%Q by ring.
    apply Qmult_le_0_compat; Lqa.lra.
  - apply Qmult_le_0_compat; exact Hpos.
Qed.

Lemma mean_in_range (d : distribution) :
  List.length d = 10%nat ->
  Forall (fun x => 0 <= x)%Q d ->
  (np_sum d == 1)%Q ->
  (1 <= np_sum (zip_with Qmult d ranks) <= 10)%Q.
Proof.
  intros Hlen Hpos Hsum.
  do 10 (destruct d as [|? d]; [discriminate Hlen|]).
  destruct d; [|discriminate Hlen].
  repeat match goal with
         | H : Forall _ (_ :: _) |- _ => inversion H; subst; clear H
         end.
  unfold ranks; simpl in *. split; Lqa.lra.
Qed.

Lemma calculate_std_score_eq (d : distribution) (mean : Q) :
  List.length d = 10%nat ->
  calculate_mean_score d = Ok mean ->
  calculate_std_score d
  = Ok (np_sqrt (np_sum (zip_with Qmult d
                   (map (fun r => ((r - mean) * (r - mean))%Q) ranks)))).
Proof.
  intros Hlen Hmean. unfold calculate_std_score. rewrite Hmean.
  cbv beta iota delta [bind].
  rewrite np_mul_same_length by (rewrite length_map; exact Hlen).
  reflexivity.
Qed.

(** In exact arithmetic.  On ten non-negative weights the mean is returned
    and the dispersion is a real number that is not negative.  When the
    weights sum to 1 the mean lies in [1, 10].  On the all-zero distribution
    mean and dispersion are both 0.  Nothing is normalised: scaling the
    weights by [c] scales the mean by [c]. *)
Lemma exact_statistics :
  forall d : distribution,
    List.length d = 10%nat ->
    Forall (fun x => 0 <= x)%Q d ->
    exists (mean : Q) (std : R),
      calculate_mean_score d = Ok mean
      /\ calculate_std_score d = Ok (np_real std)
      /\ (0 <= std)%R
      /\ ((np_sum d == 1)%Q -> (1 <= mean <= 10)%Q)
      /\ (Forall (fun x => x == 0)%Q d -> (mean == 0)%Q /\ std = 0%R)
      /\ (forall c : Q,
             exists mean', calculate_mean_score (map (Qmult c) d) = Ok mean'
                           /\ (mean' == c * mean)%Q).
Proof.
  intros d Hlen Hpos.
  set (mean := np_sum (zip_with Qmult d ranks)).
  set (squares := map (fun r => ((r - mean) * (r - mean))%Q) ranks).
  set (var := np_sum (zip_with Qmult d squares)).
  assert (Hmean : calculate_mean_score d = Ok mean).
  { unfold calculate_mean_score. rewrite (np_mul_ranks d Hlen). reflexivity. }
  assert (Hvar : (0 <= var)%Q).
  { apply weighted_sum_nonneg; [exact Hpos | apply squares_nonneg]. }
  exists mean, (sqrt (Q2R var)).
  split; [exact Hmean|]. split; [|split; [|split; [|split]]].
  - rewrite (calculate_std_score_eq d mean Hlen Hmean).
    fold squares; fold var. unfold np_sqrt.
    apply Qle_bool_iff in Hvar. rewrite Hvar. reflexivity.
  - apply sqrt_pos.
  - intro Hsum. apply mean_in_range; assumption.
  - intro Hzero. split.
    + apply weighted_sum_zero; exact Hzero.
    + assert (Hv0 : (var == 0)%Q) by (apply weighted_sum_zero; exact Hzero).
      rewrite (Qreals.Qeq_eqR _ _ Hv0).
      replace (Q2R 0) with 0%R by (unfold Q2R; simpl; Lra.lra).
      apply sqrt_0.
  - intro c. exists (np_sum (zip_with Qmult (map (Qmult c) d) ranks)). split.
    + unfold calculate_mean_score.
      rewrite np_mul_ranks by (rewrite length_map; exact Hlen). reflexivity.
    + apply weighted_sum_scale.
Qed.


(** ** Mean and dispersion in binary64 *)

Lemma f64_round_nan_or_nonneg m e l :
  SpecFloat.binary_round_aux Binary64.prec Binary64.emax false m e l = Binary64.nan
  \/ Binary64.leb Binary64.zero
       (SpecFloat.binary_round_aux Binary64.prec Binary64.emax false m e l) = true.
Proof.
  unfold SpecFloat.binary_round_aux.
  destruct (SpecFloat.shr_fexp Binary64.prec Binary64.emax m e l) as [mrs' e'].
  destruct (SpecFloat.shr_fexp Binary64.prec Binary64.emax _ e' SpecFloat.loc_Exact)
    as [mrs'' e''].
  destruct (SpecFloat.shr_m mrs'') as [|p|p].
  - right; reflexivity.
  - destruct (Z.leb e'' (Z.sub Binary64.emax Binary64.prec)); right; reflexivity.
  - left; reflexivity.
Qed.

(** A square root is NaN or not negative. *)
Lemma f64_sqrt_nan_or_nonneg x :
  Binary64.sqrt x = Binary64.nan
  \/ Binary64.leb Binary64.zero (Binary64.sqrt x) = true.
Proof.
  unfold Binary64.sqrt, SpecFloat.SFsqrt.
  destruct x as [s|s| |s m e].
  - right; reflexivity.
  - destruct s; [left | right]; reflexivity.
  - left; reflexivity.
  - destruct s; [left; reflexivity|].
    destruct (SpecFloat.SFsqrt_core_binary Binary64.prec Binary64.emax (Zpos m) e)
      as [[mz ez] lz].
    apply f64_round_nan_or_nonneg.
Qed.

Lemma f64_np_mul_same_length (a b : list Binary64.float) :
  List.length a = List.length b ->
  Binary64.np_mul a b = Ok (Binary64.zip_with Binary64.mul a b).
Proof. intro H. unfold Binary64.np_mul. rewrite H, Nat.eqb_refl. reflexivity. Qed.

Lemma f64_statistics_defined (scores : list Binary64.float) :
  List.length scores = 10%nat ->
  exists mean std,
    Binary64.calculate_mean_score scores = Ok mean
    /\ Binary64.calculate_std_score scores = Ok std
    /\ (std = Binary64.nan \/ Binary64.leb Binary64.zero std = true).
Proof.
  intro Hlen.
  assert (Hmean : exists mean, Binary64.calculate_mean_score scores = Ok mean).
  { unfold Binary64.calculate_mean_score.
    rewrite f64_np_mul_same_length by (rewrite Hlen; reflexivity).
    eexists; reflexivity. }
  destruct Hmean as [mean Hmean].
  exists mean. unfold Binary64.calculate_std_score. rewrite Hmean.
  cbv beta iota delta [bind].
  rewrite f64_np_mul_same_length by (rewrite !length_map, Hlen; reflexivity).
  eexists. split; [reflexivity|]. split; [reflexivity|].
  apply f64_sqrt_nan_or_nonneg.
Qed.




(** The uniform distribution in binary64: mean 5.5 exactly, dispersion the
    float Python prints as 2.8722813232690143. *)
Example f64_uniform_statistics :
  Binary64.calculate_mean_score f64_uniform
  = Ok (SpecFloat.S754_finite false 6192449487634432 (-50))
  /\ Binary64.calculate_std_score f64_uniform
     = Ok (SpecFloat.S754_finite false 6467802548588784 (-51)).
Proof. split; vm_compute; reflexivity. Qed.

(** Scenario A of the specification: the uniform distribution, parsed from
    the capture, has mean 5.5. *)
Example scenario_A_mean :
  parse_results capture_scenario_A = Ok [("photo1.jpg", [("aesthetic", uniform)])]
  /\ exists mean, calculate_mean_score uniform = Ok mean /\ (mean == 5.5)%Q.
Proof.
  split; [vm_compute; reflexivity|].
  eexists; split; [reflexivity | vm_compute; reflexivity].
Qed.

(** ** The renderer *)

Lemma plot_score_distribution_total (d : distribution) (title color : string) :
  List.length d = 10%nat ->
  exists mean std,
    calculate_mean_score d = Ok mean
    /\ plot_score_distribution d title color
       = Ok (mk_plot title color d mean std, mean, std).
Proof.
  intro Hlen.
  assert (Hmean : calculate_mean_score d = Ok (np_sum (zip_with Qmult d ranks))).
  { unfold calculate_mean_score. rewrite (np_mul_ranks d Hlen). reflexivity. }
  eexists; eexists. split; [exact Hmean|].
  unfold plot_score_distribution.
  rewrite (calculate_std_score_eq d _ Hlen Hmean), Hmean. reflexivity.
Qed.

Lemma visualize_image_saves image_path aes tech output_dir fig :
  draw_figure image_path aes tech = Ok fig ->
  visualize_image image_path aes tech output_dir
  = Ok (write_file (report_name image_path) (Image fig) output_dir).
Proof. intro H. unfold visualize_image. rewrite H. reflexivity. Qed.

(** C9.  With both variants the caption saved with the figure is the overall
    score, the plain average of the two means; with one variant it is that
    variant's mean. *)
Theorem overall_score_is_average :
  forall (image_path : string) (aes tech : distribution) (output_dir : directory),
    List.length aes = 10%nat ->
    List.length tech = 10%nat ->
    exists aes_mean tech_mean fig_both fig_aes fig_tech,
      calculate_mean_score aes = Ok aes_mean
      /\ calculate_mean_score tech = Ok tech_mean
      /\ visualize_image image_path (Some aes) (Some tech) output_dir
         = Ok (write_file (report_name image_path) (Image fig_both) output_dir)
      /\ caption fig_both = Some (OverallScore ((aes_mean + tech_mean) / 2))
      /\ visualize_image image_path (Some aes) None output_dir
         = Ok (write_file (report_name image_path) (Image fig_aes) output_dir)
      /\ caption fig_aes = Some (AestheticScore aes_mean)
      /\ visualize_image image_path None (Some tech) output_dir
         = Ok (write_file (report_name image_path) (Image fig_tech) output_dir)
      /\ caption fig_tech = Some (TechnicalScore tech_mean).
Proof.
  intros image_path aes tech output_dir Ha Ht.
  destruct (plot_score_distribution_total aes "Aesthetic Scores" "blue" Ha)
    as [aes_mean [aes_std [Hma Hpa]]].
  destruct (plot_score_distribution_total tech "Technical Scores" "green" Ht)
    as [tech_mean [tech_std [Hmt Hpt]]].
  exists aes_mean, tech_mean. do 3 eexists.
  split; [exact Hma|]. split; [exact Hmt|].
  split; [|split; [|split; [|split; [|split]]]].
  - apply visualize_image_saves. unfold draw_figure. rewrite Hpa, Hpt. reflexivity.
  - reflexivity.
  - apply visualize_image_saves. unfold draw_figure. rewrite Hpa. reflexivity.
  - reflexivity.
  - apply visualize_image_saves. unfold draw_figure. rewrite Hpt. reflexivity.
  - reflexivity.
Qed.

Lemma overall_score_is_average_witness :
  exists aes_mean tech_mean fig_both fig_aes fig_tech,
    calculate_mean_score uniform = Ok aes_mean
    /\ calculate_mean_score peaked = Ok tech_mean
    /\ visualize_image "sample_images/photo1.jpg" (Some uniform) (Some peaked) []
       = Ok (write_file (report_name "sample_images/photo1.jpg") (Image fig_both) [])
    /\ caption fig_both = Some (OverallScore ((aes_mean + tech_mean) / 2))
    /\ visualize_image "sample_images/photo1.jpg" (Some uniform) None []
       = Ok (write_file (report_name "sample_images/photo1.jpg") (Image fig_aes) [])
    /\ caption fig_aes = Some (AestheticScore aes_mean)
    /\ visualize_image "sample_images/photo1.jpg" None (Some peaked) []
       = Ok (write_file (report_name "sample_images/photo1.jpg") (Image fig_tech) [])
    /\ caption fig_tech = Some (TechnicalScore tech_mean).
Proof.
  apply (overall_score_is_average "sample_images/photo1.jpg" uniform peaked []);
    reflexivity.
Defined.

(** C4, as stated, fails: with neither variant the renderer raises nothing
    and saves a figure, an empty one. *)
Lemma blank_figure_saved :
  visualize_image "sample_images/photo1.jpg" None None []
  = Ok [("photo1_scores.png", Image blank_figure)].
Proof. vm_compute; reflexivity. Qed.

(** C4, as the code has it.  Whichever of the two distributions are handed
    over, the renderer raises nothing and saves one figure under the image's
    base name, with one plot per distribution present; with neither present
    the figure saved is empty. *)
Theorem renderer_saves_what_is_present :
  forall (image_path : string) (aes tech : option distribution)
         (output_dir : directory),
    Forall (fun d => List.length d = 10%nat) (present aes ++ present tech) ->
    exists fig,
      visualize_image image_path aes tech output_dir
      = Ok (write_file (report_name image_path) (Image fig) output_dir)
      /\ map plot_bars (plots fig) = present aes ++ present tech
      /\ (aes = None -> tech = None -> fig = blank_figure).
Proof.
  intros image_path aes tech output_dir Hlen.
  destruct aes as [a|], tech as [t|]; simpl in Hlen.
  - inversion Hlen as [|? ? Ha Hrest]; subst.
    inversion Hrest as [|? ? Ht _]; subst.
    destruct (plot_score_distribution_total a "Aesthetic Scores" "blue" Ha)
      as [ma [sa [_ Hpa]]].
    destruct (plot_score_distribution_total t "Technical Scores" "green" Ht)
      as [mt [st [_ Hpt]]].
    eexists. split; [|split].
    + apply visualize_image_saves. unfold draw_figure. rewrite Hpa, Hpt. reflexivity.
    + reflexivity.
    + discriminate.
  - inversion Hlen as [|? ? Ha _]; subst.
    destruct (plot_score_distribution_total a "Aesthetic Scores" "blue" Ha)
      as [ma [sa [_ Hpa]]].
    eexists. split; [|split].
    + apply visualize_image_saves. unfold draw_figure. rewrite Hpa. reflexivity.
    + reflexivity.
    + discriminate.
  - inversion Hlen as [|? ? Ht _]; subst.
    destruct (plot_score_distribution_total t "Technical Scores" "green" Ht)
      as [mt [st [_ Hpt]]].
    eexists. split; [|split].
    + apply visualize_image_saves. unfold draw_figure. rewrite Hpt. reflexivity.
    + reflexivity.
    + discriminate.
  - exists blank_figure. split; [|split]; reflexivity.
Qed.

Lemma renderer_saves_what_is_present_witness :
  exists fig,
    visualize_image "sample_images/photo1.jpg" (Some uniform) None []
    = Ok (write_file (report_name "sample_images/photo1.jpg") (Image fig) [])
    /\ map plot_bars (plots fig) = present (Some uniform) ++ present None
    /\ (Some uniform = None -> @None distribution = None -> fig = blank_figure).
Proof.
  apply (renderer_saves_what_is_present "sample_images/photo1.jpg"
           (Some uniform) None []).
  constructor; [reflexivity | constructor].
Defined.

(** ** The result store *)




(** What the loader does with a document of the batch writer. *)
Lemma load_file_nested model_type table f table' :
  nested_shape f ->
  load_file model_type table f = Ok table' -> table' = table.
Proof.
  intros [models Hdoc]. unfold load_file. rewrite Hdoc; simpl. clear Hdoc.
  assert (Hsub : forall key v,
             dict_get String.eqb key
               (map (fun m : string * distribution => (fst m, to_json (snd m))) models)
             = Some v -> exists items, v = JArr items).
  { intros key v. induction models as [|[k d] models IH]; simpl; [discriminate|].
    destruct (String.eqb key k); [|exact IH].
    intros [= <-]. eexists; reflexivity. }
  destruct (String.eqb model_type "both"); simpl.
  - destruct (dict_get String.eqb "image" _) as [v|] eqn:E; simpl; [|discriminate].
    destruct (Hsub _ _ E) as [items ->]. simpl. discriminate.
  - destruct (dict_get String.eqb "model_type" _) as [v|] eqn:E; simpl; [|discriminate].
    destruct (Hsub _ _ E) as [items ->]. simpl. intros [= <-]; reflexivity.
Qed.

Lemma save_results_nested table : forall dir,
  Forall nested_shape dir -> Forall nested_shape (save_results table dir).
Proof.
  unfold save_results.
  induction table as [|[image models] table IH]; intros dir Hdir; simpl.
  - exact Hdir.
  - apply IH. unfold write_file. apply dict_set_Forall; [|exact Hdir].
    intro k'. exists models. reflexivity.
Qed.

Lemma load_nested_only files : forall model_type table table',
  Forall nested_shape files ->
  foldM (load_file model_type) table files = Ok table' -> table' = table.
Proof.
  induction files as [|f files IH]; intros model_type table table' Hall; simpl.
  - intros [= <-]; reflexivity.
  - inversion Hall as [|? ? Hf Hrest]; subst.
    destruct (load_file model_type table f) as [table1|e] eqn:E; simpl; [|discriminate].
    apply load_file_nested in E; [|exact Hf]. subst table1.
    apply IH; exact Hrest.
Qed.

(** No record written by [save_results] ever comes back from [load_results]. *)
Lemma batch_documents_never_load :
  forall (table : score_table) (model_type : string) (back : loaded),
    load_results (save_results table []) model_type = Ok back -> back = [].
Proof.
  intros table model_type back. unfold load_results, glob_json.
  apply load_nested_only.
  apply Forall_forall. intros f Hf. apply filter_In in Hf. destruct Hf as [Hf _].
  pose proof (save_results_nested table [] (Forall_nil _)) as Hall.
  rewrite Forall_forall in Hall. exact (Hall f Hf).
Qed.

(** C1 at a concrete capture.  The record of [predict_script] for photo1.jpg
    reads back with its distribution under its variant.  The same prediction
    parsed from scenario A and written by [save_results] does not: the loader
    asks the per-image document for the fields of the flattened one and
    raises [KeyError]. *)
Theorem batch_record_does_not_read_back :
  (exists dir,
      save_prediction "sample_images/photo1.jpg" "aesthetic" uniform [] = Ok dir
      /\ load_results dir "both"
         = Ok [(JStr "photo1.jpg", [(JStr "aesthetic", to_json uniform)])])
  /\ (exists table,
         parse_results capture_scenario_A = Ok table
         /\ lookup "photo1.jpg" "aesthetic" table = Some uniform
         /\ save_results table [] = [("photo1_scores.json", Document nested_document)]
         /\ load_results (save_results table []) "both" = Err (KeyError "image")
         /\ load_results (save_results table []) "aesthetic"
            = Err (KeyError "model_type")).
Proof.
  split.
  - eexists. split; vm_compute; reflexivity.
  - eexists. split; [vm_compute; reflexivity|].
    repeat split; vm_compute; reflexivity.
Qed.

(** * Further properties of the code *)

(** ** The parser: what a table can hold *)

Lemma str_split_nonempty sep s : str_split sep s <> [].
Proof.
  destruct s as [|c s]; simpl; [discriminate|].
  destruct (Ascii.eqb c sep); [discriminate|].
  destruct (str_split sep s); discriminate.
Qed.

Lemma mapM_Forall {A B : Type} (f : A -> result B) (P : B -> Prop) (xs : list A) :
  (forall x y, f x = Ok y -> P y) ->
  forall ys, mapM f xs = Ok ys -> Forall P ys.
Proof.
  intro Hf. induction xs as [|x xs IH]; intros ys; simpl.
  - intros [= <-]; constructor.
  - destruct (f x) as [y|e] eqn:E; simpl; [|discriminate].
    destruct (mapM f xs) as [ys'|e]; simpl; [|discriminate].
    intros [= <-]. constructor; [eapply Hf; exact E | apply IH; reflexivity].
Qed.

Lemma decimal_value_nonneg int_part frac_part :
  (0 <= decimal_value int_part frac_part)%Q.
Proof.
  unfold decimal_value, Qle; simpl. rewrite Z.mul_1_r. apply N2Z.is_nonneg.
Qed.

Lemma py_float_nonneg token q : py_float token = Ok q -> (0 <= q)%Q.
Proof.
  unfold py_float.
  destruct (span is_digit (rstrip is_c_space (lstrip is_c_space token)))
    as [int_part rest].
  destruct rest as [|c rest'].
  - destruct int_part; [discriminate|].
    intros [= <-]; apply decimal_value_nonneg.
  - destruct (Ascii.eqb c "."); [|discriminate].
    destruct (span is_digit rest') as [frac_part junk].
    destruct junk; [|discriminate].
    destruct int_part, frac_part; try discriminate;
      intros [= <-]; apply decimal_value_nonneg.
Qed.

Lemma parse_scores_shape score_str d :
  parse_scores score_str = Ok d ->
  d <> [] /\ Forall (fun x => 0 <= x)%Q d.
Proof.
  intro H. split.
  - pose proof (mapM_length _ _ _ H) as Hlen.
    pose proof (str_split_nonempty "," score_str) as Hne.
    destruct d; [|discriminate].
    destruct (str_split "," score_str); [congruence | discriminate Hlen].
  - unfold parse_scores in H.
    eapply mapM_Forall; [|exact H].
    intros x y Hxy; eapply py_float_nonneg; exact Hxy.
Qed.

Lemma dict_set_nonempty {V : Type} k (v : V) d : dict_set String.eqb k v d <> [].
Proof.
  destruct d as [|[k' v'] d]; simpl; [discriminate|].
  destruct (String.eqb k k'); discriminate.
Qed.

Lemma parse_line_entries lines st line st' :
  In line lines ->
  entries_from_lines lines st ->
  parse_line st line = Ok st' ->
  entries_from_lines lines st'.
Proof.
  intros Hline [Hcur [Himg Hdist]]. unfold parse_line.
  destruct (model_match line) as [g|] eqn:Hm.
  { intros [= <-]. split; [|split]; assumption. }
  destruct (image_match line) as [g|] eqn:Hi.
  { intros [= <-]. split; [|split]; simpl; try assumption.
    intros i [= <-]. exists line. repeat split; assumption. }
  destruct (score_match line) as [score_str|] eqn:Hs;
    [|intros [= <-]; split; [|split]; assumption].
  destruct (truthy (current_image st) && truthy (current_model st)) eqn:Hkey;
    [|intros [= <-]; split; [|split]; assumption].
  apply andb_true_iff in Hkey. destruct Hkey as [Hti _].
  apply truthy_inv in Hti. destruct Hti as [i [Hci _]].
  destruct (parse_scores score_str) as [scores|e] eqn:Hps; simpl; [|discriminate].
  intros [= <-]. rewrite Hci; simpl. split; [|split]; simpl.
  - rewrite <- Hci. exact Hcur.
  - intros image inner Hin. unfold record_scores in Hin.
    apply dict_set_In in Hin. destruct Hin as [[-> ->]|Hin]; [|apply Himg; exact Hin].
    split; [apply Hcur; exact Hci | apply dict_set_nonempty].
  - intros image inner v d Hin Hv. unfold record_scores in Hin.
    apply dict_set_In in Hin. destruct Hin as [[_ ->]|Hin]; [|eapply Hdist; eassumption].
    apply dict_set_In in Hv. destruct Hv as [[_ ->]|Hv].
    + exists line, score_str. repeat split; assumption.
    + destruct (dict_get String.eqb i (results st)) as [inner0|] eqn:E; [|destruct Hv].
      apply dict_get_In in E. eapply Hdist; eassumption.
Qed.

Lemma parse_lines_entries lines rest : forall st st',
  (forall l, In l rest -> In l lines) ->
  entries_from_lines lines st ->
  foldM parse_line st rest = Ok st' ->
  entries_from_lines lines st'.
Proof.
  induction rest as [|l rest IH]; intros st st' Hsub Hinv; simpl.
  - intros [= <-]; exact Hinv.
  - destruct (parse_line st l) as [st1|e] eqn:E; simpl; [|discriminate].
    apply IH.
    + intros l' Hl'; apply Hsub; right; exact Hl'.
    + eapply parse_line_entries; [apply Hsub; left; reflexivity | exact Hinv | exact E].
Qed.

Lemma parse_results_state output_text table :
  parse_results output_text = Ok table ->
  exists st, parse_lines (str_split LF output_text) = Ok st /\ results st = table.
Proof.
  unfold parse_results.
  destruct (parse_lines (str_split LF output_text)) as [st|e]; simpl; [|discriminate].
  intros [= <-]. exists st; split; reflexivity.
Qed.

(** X1.  Every entry of the table the parser returns has an image name
    captured from an announcement line of the text (non-empty, made of word
    characters, dots and hyphens) and at least one variant; the image names
    are pairwise distinct, and so are the variant names of each image. *)
Theorem parsed_table_entries :
  forall (output_text : string) (table : score_table)
         (image : string) (inner : variants),
    parse_results output_text = Ok table ->
    In (image, inner) table ->
    from_announcement (str_split LF output_text) image
    /\ image <> EmptyString
    /\ forall_chars image_class image = true
    /\ inner <> []
    /\ NoDup (dict_keys inner)
    /\ NoDup (dict_keys table).
Proof.
  intros output_text table image inner Hparse Hin.
  destruct (parse_results_state _ _ Hparse) as [st [Hrun <-]].
  unfold parse_lines in Hrun.
  assert (Hinv : entries_from_lines (str_split LF output_text) st).
  { eapply parse_lines_entries; [| |exact Hrun].
    - intros l Hl; exact Hl.
    - split; [|split]; simpl; [discriminate | intros ? ? [] | intros ? ? ? ? []]. }
  destruct Hinv as [_ [Himg _]].
  destruct (Himg image inner Hin) as [Hfrom Hne].
  destruct (parse_lines_ok _ _ _ initial_state_ok Hrun) as [[Hout Hinn] _].
  split; [exact Hfrom|].
  destruct Hfrom as [line [_ [_ Hi]]].
  destruct (image_match_name _ _ Hi) as [Hn Hc].
  split; [exact Hn|]. split; [exact Hc|]. split; [exact Hne|].
  split; [|exact Hout].
  rewrite Forall_forall in Hinn. exact (Hinn _ Hin).
Qed.

Lemma parsed_table_entries_witness :
  from_announcement (str_split LF capture_rerun) "photo2.jpg"
  /\ "photo2.jpg" <> EmptyString
  /\ forall_chars image_class "photo2.jpg" = true
  /\ [("aesthetic", uniform)] <> []
  /\ NoDup (dict_keys [("aesthetic", uniform)])
  /\ NoDup (dict_keys [("photo1.jpg", [("aesthetic", peaked)]);
                       ("photo2.jpg", [("aesthetic", uniform)])]).
Proof.
  apply (parsed_table_entries capture_rerun
           [("photo1.jpg", [("aesthetic", peaked)]);
            ("photo2.jpg", [("aesthetic", uniform)])]
           "photo2.jpg" [("aesthetic", uniform)]).
  - vm_compute; reflexivity.
  - right; left; reflexivity.
Defined.

(** X2.  Every distribution of the table the parser returns was read from a
    distribution line of the text; it holds at least one number and no
    negative number. *)
Theorem parsed_distribution_shape :
  forall (output_text : string) (table : score_table)
         (image variant : string) (d : distribution),
    parse_results output_text = Ok table ->
    lookup image variant table = Some d ->
    from_score_line (str_split LF output_text) d
    /\ d <> []
    /\ Forall (fun x => 0 <= x)%Q d.
Proof.
  intros output_text table image variant d Hparse Hlook.
  destruct (parse_results_state _ _ Hparse) as [st [Hrun <-]].
  unfold parse_lines in Hrun.
  assert (Hinv : entries_from_lines (str_split LF output_text) st).
  { eapply parse_lines_entries; [| |exact Hrun].
    - intros l Hl; exact Hl.
    - split; [|split]; simpl; [discriminate | intros ? ? [] | intros ? ? ? ? []]. }
  destruct Hinv as [_ [_ Hdist]].
  unfold lookup in Hlook.
  destruct (dict_get String.eqb image (results st)) as [inner|] eqn:E; [|discriminate].
  apply dict_get_In in E. apply dict_get_In in Hlook.
  pose proof (Hdist image inner variant d E Hlook) as Hfrom.
  split; [exact Hfrom|].
  destruct Hfrom as [line [score_str [_ [_ [_ Hps]]]]].
  apply parse_scores_shape in Hps. exact Hps.
Qed.

Lemma parsed_distribution_shape_witness :
  from_score_line (str_split LF capture_short) [0.1; 0.2]%Q
  /\ [0.1; 0.2]%Q <> []
  /\ Forall (fun x => 0 <= x)%Q [0.1; 0.2]%Q.
Proof.
  apply (parsed_distribution_shape capture_short
           [("photo1.jpg", [("aesthetic", [0.1; 0.2]%Q)])]
           "photo1.jpg" "aesthetic").
  - vm_compute; reflexivity.
  - reflexivity.
Defined.

(** ** The parser: when it raises, when it finds nothing *)

Lemma foldM_error {S A : Type} (body : S -> A -> result S) (xs : list A) :
  forall st e, foldM body st xs = Err e ->
  exists pre x post st', xs = pre ++ x :: post
                         /\ foldM body st pre = Ok st' /\ body st' x = Err e.
Proof.
  induction xs as [|x xs IH]; intros st e; simpl; [discriminate|].
  destruct (body st x) as [st1|e1] eqn:E; simpl.
  - intro H. destruct (IH st1 e H) as [pre [y [post [st' [-> [Hpre Hy]]]]]].
    exists (x :: pre), y, post, st'. split; [reflexivity|]. split; [|exact Hy].
    simpl. rewrite E; exact Hpre.
  - intros [= ->]. exists [], x, xs, st. repeat split; assumption.
Qed.

Lemma parse_line_error st line e :
  parse_line st line = Err e ->
  plain line
  /\ truthy (current_image st) && truthy (current_model st) = true
  /\ exists score_str, score_match line = Some score_str
                       /\ parse_scores score_str = Err e.
Proof.
  unfold parse_line, plain.
  destruct (model_match line); [discriminate|].
  destruct (image_match line); [discriminate|].
  destruct (score_match line) as [score_str|]; [|discriminate].
  destruct (truthy (current_image st) && truthy (current_model st)); [|discriminate].
  destruct (parse_scores score_str) as [scores|e'] eqn:E; simpl; [discriminate|].
  intros [= ->]. repeat split. exists score_str; split; [reflexivity | exact E].
Qed.

(** X3.  The only exception the parser raises is [ValueError], and it raises
    it only at a distribution line that is met with an image and a variant
    set and whose payload has a token [float()] refuses. *)
Theorem parse_results_raises_only_on_bad_token :
  forall (output_text : string) (e : exn),
    parse_results output_text = Err e ->
    e = ValueError
    /\ exists pre line post st score_str token,
         str_split LF output_text = pre ++ line :: post
         /\ parse_lines pre = Ok st
         /\ truthy (current_image st) && truthy (current_model st) = true
         /\ plain line
         /\ score_match line = Some score_str
         /\ In token (str_split "," score_str)
         /\ py_float (strip token) = Err ValueError.
Proof.
  intros output_text e. unfold parse_results, parse_lines.
  destruct (foldM parse_line initial_state (str_split LF output_text))
    as [st|e'] eqn:Hrun; simpl; [discriminate|].
  intros [= ->].
  destruct (foldM_error _ _ _ _ Hrun) as [pre [line [post [st' [Hsplit [Hpre Hline]]]]]].
  destruct (parse_line_error _ _ _ Hline) as [Hplain [Hkey [score_str [Hs Hps]]]].
  destruct (parse_scores_error _ _ Hps) as [-> [token [Hin Htok]]].
  split; [reflexivity|].
  exists pre, line, post, st', score_str, token.
  split; [exact Hsplit|]. split; [exact Hpre|]. split; [exact Hkey|].
  split; [exact Hplain|]. split; [exact Hs|]. split; assumption.
Qed.

Lemma parse_results_raises_only_on_bad_token_witness :
  ValueError = ValueError
  /\ exists pre line post st score_str token,
       str_split LF capture_broken = pre ++ line :: post
       /\ parse_lines pre = Ok st
       /\ truthy (current_image st) && truthy (current_model st) = true
       /\ plain line
       /\ score_match line = Some score_str
       /\ In token (str_split "," score_str)
       /\ py_float (strip token) = Err ValueError.
Proof.
  apply (parse_results_raises_only_on_bad_token capture_broken ValueError).
  vm_compute; reflexivity.
Defined.

Lemma parse_line_without_scores st line :
  (plain line -> score_match line = None) ->
  exists st', parse_line st line = Ok st' /\ results st' = results st.
Proof.
  intro Hns. unfold parse_line.
  destruct (model_match line) eqn:Hm; [eexists; split; reflexivity|].
  destruct (image_match line) eqn:Hi; [eexists; split; reflexivity|].
  rewrite (Hns (conj Hm Hi)). eexists; split; reflexivity.
Qed.

(** X4.  A text in which no line is read as a distribution line (each line is
    a header, an announcement, or matches nothing) parses without error to
    the empty table, however many headers and announcements it has. *)
Theorem no_distribution_line_no_record :
  forall output_text : string,
    Forall (fun line => plain line -> score_match line = None)
           (str_split LF output_text) ->
    parse_results output_text = Ok [].
Proof.
  intros output_text Hall. unfold parse_results, parse_lines.
  assert (Hgen : forall lines st,
             Forall (fun line => plain line -> score_match line = None) lines ->
             exists st', foldM parse_line st lines = Ok st'
                         /\ results st' = results st).
  { induction lines as [|l lines IH]; intros st Hl; simpl.
    - exists st; split; reflexivity.
    - inversion Hl as [|? ? Hhd Htl]; subst.
      destruct (parse_line_without_scores st l Hhd) as [st1 [Hst1 Hres1]].
      rewrite Hst1; simpl.
      destruct (IH st1 Htl) as [st' [Hrun Hres]].
      exists st'; split; [exact Hrun | congruence]. }
  destruct (Hgen _ initial_state Hall) as [st' [Hrun Hres]].
  rewrite Hrun; simpl. rewrite Hres. reflexivity.
Qed.

Lemma no_distribution_line_no_record_witness :
  parse_results (text_of [header_aesthetic; announce_photo1; "done";
                          header_technical; announce_photo2]) = Ok [].
Proof.
  apply no_distribution_line_no_record.
  repeat constructor; vm_compute; intros [H1 H2]; first [reflexivity | discriminate].
Defined.

(** X5.  The case of the word in a header is immaterial: exchanging a header
    line for another whose captured word differs only in case changes
    nothing in the result of the parse, error or table. *)
Theorem header_case_insensitive :
  forall (pre post : list string) (header1 header2 word1 word2 : string),
    model_match header1 = Some word1 ->
    model_match header2 = Some word2 ->
    lower word1 = lower word2 ->
    parse_lines (pre ++ header1 :: post) = parse_lines (pre ++ header2 :: post).
Proof.
  intros pre post header1 header2 word1 word2 H1 H2 Hlow.
  unfold parse_lines. rewrite !foldM_app.
  destruct (foldM parse_line initial_state pre) as [st|e]; simpl; [|reflexivity].
  rewrite (parse_line_header st _ _ H1), (parse_line_header st _ _ H2), Hlow.
  reflexivity.
Qed.

Lemma header_case_insensitive_witness :
  parse_lines (["Loading model"] ++ "===== Evaluating AESTHETIC quality"
                 :: [announce_photo1; uniform_line])
  = parse_lines (["Loading model"] ++ header_aesthetic
                   :: [announce_photo1; uniform_line]).
Proof.
  apply (header_case_insensitive ["Loading model"] [announce_photo1; uniform_line]
           "===== Evaluating AESTHETIC quality" header_aesthetic
           "AESTHETIC" "aesthetic"); vm_compute; reflexivity.
Defined.

(** X6.  The announced image outlives a change of header: one announcement,
    then two headers each followed by its own distribution line, gives a
    single entry for that image holding both variants (the second replacing
    the first when the two header words agree up to case). *)
Theorem image_persists_across_headers :
  forall (output_text announce header1 scores1 header2 scores2 : string)
         (n0 n1 n2 n3 n4 n5 : list string)
         (image variant1 variant2 str1 str2 : string) (dist1 dist2 : distribution),
    str_split LF output_text
      = n0 ++ announce :: n1 ++ header1 :: n2 ++ scores1
           :: n3 ++ header2 :: n4 ++ scores2 :: n5 ->
    Forall noise (n0 ++ n1 ++ n2 ++ n3 ++ n4 ++ n5) ->
    model_match announce = None -> image_match announce = Some image ->
    model_match header1 = Some variant1 ->
    plain scores1 -> score_match scores1 = Some str1 ->
    parse_scores str1 = Ok dist1 ->
    model_match header2 = Some variant2 ->
    plain scores2 -> score_match scores2 = Some str2 ->
    parse_scores str2 = Ok dist2 ->
    exists inner,
      parse_results output_text = Ok [(image, inner)]
      /\ dict_get String.eqb (lower variant2) inner = Some dist2
      /\ (lower variant1 <> lower variant2 ->
          inner = [(lower variant1, dist1); (lower variant2, dist2)]).
Proof.
  intros output_text announce header1 scores1 header2 scores2
         n0 n1 n2 n3 n4 n5 image variant1 variant2 str1 str2 dist1 dist2
         Hsplit Hnoise Ham Ha Hh1 Hs1p Hs1 Hd1 Hh2 Hs2p Hs2 Hd2.
  repeat (apply Forall_app in Hnoise;
          let H := fresh "Hn" in destruct Hnoise as [H Hnoise]).
  destruct (model_match_word _ _ Hh1) as [Hv1 _]. apply lower_nonempty in Hv1.
  destruct (model_match_word _ _ Hh2) as [Hv2 _]. apply lower_nonempty in Hv2.
  destruct (image_match_name _ _ Ha) as [Hi _].
  assert (Hrun : parse_results output_text
                 = Ok (record_scores image (lower variant2) dist2
                         (record_scores image (lower variant1) dist1 []))).
  { unfold parse_results, parse_lines. rewrite Hsplit.
    rewrite parse_noise_then by assumption.
    rewrite (parse_line_announcement _ _ _ Ham Ha); simpl bind.
    rewrite parse_noise_then by assumption.
    rewrite (parse_line_header _ _ _ Hh1); simpl bind.
    rewrite parse_noise_then by assumption.
    rewrite (parse_line_scores _ _ _ image (lower variant1) Hs1p Hs1)
      by (try reflexivity; assumption).
    rewrite Hd1; simpl bind.
    rewrite parse_noise_then by assumption.
    rewrite (parse_line_header _ _ _ Hh2); simpl bind.
    rewrite parse_noise_then by assumption.
    rewrite (parse_line_scores _ _ _ image (lower variant2) Hs2p Hs2)
      by (try reflexivity; assumption).
    rewrite Hd2; simpl bind.
    rewrite parse_noise by assumption. reflexivity. }
  rewrite Hrun. unfold record_scores; simpl. rewrite String.eqb_refl; simpl.
  eexists. split; [reflexivity|]. split.
  - destruct (String.eqb (lower variant2) (lower variant1)) eqn:E; simpl.
    + rewrite E; reflexivity.
    + rewrite E, String.eqb_refl; reflexivity.
  - intro Hne. apply not_eq_sym in Hne. apply String.eqb_neq in Hne.
    rewrite Hne. reflexivity.
Qed.

Lemma image_persists_across_headers_witness :
  exists inner,
    parse_results (text_of [announce_photo1; header_aesthetic; uniform_line;
                            header_technical; peaked_line])
    = Ok [("photo1.jpg", inner)]
    /\ dict_get String.eqb (lower "technical") inner = Some peaked
    /\ (lower "aesthetic" <> lower "technical" ->
        inner = [(lower "aesthetic", uniform); (lower "technical", peaked)]).
Proof.
  apply (image_persists_across_headers
           (text_of [announce_photo1; header_aesthetic; uniform_line;
                     header_technical; peaked_line])
           announce_photo1 header_aesthetic uniform_line header_technical peaked_line
           [] [] [] [] [] []
           "photo1.jpg" "aesthetic" "technical"
           "0.1,0.1,0.1,0.1,0.1,0.1,0.1,0.1,0.1,0.1"
           "0, 0, 0, 0, 0.5, 0.5, 0, 0, 0, 0").
  - vm_compute; reflexivity.
  - constructor.
  - vm_compute; reflexivity.
  - vm_compute; reflexivity.
  - vm_compute; reflexivity.
  - split; vm_compute; reflexivity.
  - vm_compute; reflexivity.
  - vm_compute; reflexivity.
  - vm_compute; reflexivity.
  - split; vm_compute; reflexivity.
  - vm_compute; reflexivity.
  - vm_compute; reflexivity.
Defined.

(** ** Statistics: shapes, point masses, the largest dispersion *)

(** X7.  The mean is defined exactly for lists of ten numbers and, by
    broadcasting, for lists of one number; any other length raises
    [ValueError].  A single number [x] is stretched over the ten ranks and
    gives [55 * x]. *)
Theorem mean_defined_for_ten_or_one :
  forall d : distribution,
    ((exists mean, calculate_mean_score d = Ok mean)
     <-> (List.length d = 10%nat \/ List.length d = 1%nat))
    /\ (forall e, calculate_mean_score d = Err e -> e = ValueError)
    /\ (forall x mean, d = [x] -> calculate_mean_score d = Ok mean ->
                       (mean == 55 * x)%Q).
Proof.
  intro d. unfold calculate_mean_score, np_mul.
  destruct (Nat.eqb (List.length d) (List.length ranks)) eqn:Elen.
  - apply Nat.eqb_eq in Elen. simpl in Elen. split; [|split].
    + split; [intros _; left; exact Elen | intros _; eexists; reflexivity].
    + discriminate.
    + intros x mean ->. discriminate Elen.
  - apply Nat.eqb_neq in Elen. simpl in Elen.
    destruct d as [|x [|y d']]; simpl.
    + split; [|split].
      * split; [intros [m H]; discriminate H | intros [H|H]; discriminate H].
      * intros e [= <-]; reflexivity.
      * intros ? ? [=].
    + split; [|split].
      * split; [intros _; right; reflexivity | intros _; eexists; reflexivity].
      * discriminate.
      * intros x' mean [= <-] [= <-]. unfold np_sum; simpl. ring.
    + split; [|split].
      * split; [intros [m H]; discriminate H|].
        intros [H|H]; [exfalso; apply Elen; exact H | discriminate H].
      * intros e [= <-]; reflexivity.
      * intros ? ? [=].
Qed.

Lemma std_of_zero_variance (d : distribution) (mean : Q) :
  List.length d = 10%nat ->
  calculate_mean_score d = Ok mean ->
  (np_sum (zip_with Qmult d
             (map (fun r => ((r - mean) * (r - mean))%Q) ranks)) == 0)%Q ->
  calculate_std_score d = Ok (np_real 0).
Proof.
  intros Hlen Hmean Hvar.
  rewrite (calculate_std_score_eq d mean Hlen Hmean). unfold np_sqrt.
  assert (Hle : Qle_bool 0 (np_sum (zip_with Qmult d
                  (map (fun r => ((r - mean) * (r - mean))%Q) ranks))) = true).
  { apply Qle_bool_iff. rewrite Hvar. apply Qle_refl. }
  rewrite Hle. rewrite (Qreals.Qeq_eqR _ _ Hvar).
  replace (Q2R 0) with 0%R by (unfold Q2R; simpl; Lra.lra).
  rewrite sqrt_0. reflexivity.
Qed.

(** X8.  A distribution with all its weight on one rank [k] has mean [k] and
    dispersion 0. *)
Theorem point_mass_statistics :
  forall k : nat,
    (1 <= k <= 10)%nat ->
    exists mean,
      calculate_mean_score (point_mass k) = Ok mean
      /\ (mean == inject_Z (Z.of_nat k))%Q
      /\ calculate_std_score (point_mass k) = Ok (np_real 0).
Proof.
  intros k Hk.
  assert (Hcases : (k = 1 \/ k = 2 \/ k = 3 \/ k = 4 \/ k = 5
                    \/ k = 6 \/ k = 7 \/ k = 8 \/ k = 9 \/ k = 10)%nat) by lia.
  repeat (destruct Hcases as [->|Hcases]); [..|subst k];
    (eexists; split; [reflexivity|]; split; [vm_compute; reflexivity|];
     eapply std_of_zero_variance;
     [reflexivity | reflexivity | vm_compute; reflexivity]).
Qed.

Lemma point_mass_statistics_witness :
  exists mean,
    calculate_mean_score (point_mass 7) = Ok mean
    /\ (mean == inject_Z (Z.of_nat 7))%Q
    /\ calculate_std_score (point_mass 7) = Ok (np_real 0).
Proof. apply (point_mass_statistics 7). lia. Defined.

Lemma variance_decomposition (d : distribution) :
  List.length d = 10%nat ->
  (np_sum d == 1)%Q ->
  (variance_about (np_sum (zip_with Qmult d ranks)) d
   == second_moment d
      - np_sum (zip_with Qmult d ranks) * np_sum (zip_with Qmult d ranks))%Q.
Proof.
  intros Hlen Hsum.
  do 10 (destruct d as [|? d]; [discriminate Hlen|]).
  destruct d; [|discriminate Hlen].
  unfold variance_about, second_moment, ranks, np_sum in *; simpl in *.
  match goal with
  | |- (?v == ?s2 - ?m * ?m)%Q =>
      match type of Hsum with
      | (?s == 1)%Q =>
          assert (Hid : (v == s2 - 2 * m * m + m * m * s)%Q) by ring;
          rewrite Hid, Hsum; ring
      end
  end.
Qed.

Lemma second_moment_bound (d : distribution) :
  List.length d = 10%nat ->
  Forall (fun x => 0 <= x)%Q d ->
  (second_moment d <= 11 * np_sum (zip_with Qmult d ranks) - 10 * np_sum d)%Q.
Proof.
  intros Hlen Hpos.
  do 10 (destruct d as [|? d]; [discriminate Hlen|]).
  destruct d; [|discriminate Hlen].
  repeat match goal with
         | H : Forall _ (_ :: _) |- _ => inversion H; subst; clear H
         end.
  unfold second_moment, ranks, np_sum; simpl. Lqa.lra.
Qed.

Lemma variance_at_most (d : distribution) :
  List.length d = 10%nat ->
  Forall (fun x => 0 <= x)%Q d ->
  (np_sum d == 1)%Q ->
  (variance_about (np_sum (zip_with Qmult d ranks)) d <= 81 # 4)%Q.
Proof.
  intros Hlen Hpos Hsum.
  rewrite (variance_decomposition d Hlen Hsum).
  pose proof (second_moment_bound d Hlen Hpos) as Hs2.
  rewrite Hsum in Hs2.
  generalize dependent (second_moment d). 
  generalize (np_sum (zip_with Qmult d ranks)). intros m s2 Hs2.
  assert (Hsq : (0 <= (m - (11 # 2)) * (m - (11 # 2)))%Q).
  { generalize (m - (11 # 2))%Q; intro x.
    destruct (Qlt_le_dec x 0) as [Hneg|Hp].
    - setoid_replace (x * x)%Q with ((- x) * (- x))%Q by ring.
      apply Qmult_le_0_compat; Lqa.lra.
    - apply Qmult_le_0_compat; exact Hp. }
  assert (Hexp : ((m - (11 # 2)) * (m - (11 # 2)) == m * m - 11 * m + (121 # 4))%Q)
    by ring.
  rewrite Hexp in Hsq. clear Hexp. Lqa.lra.
Qed.

(** X9.  For ten non-negative weights that sum to 1 the variance under the
    square root is the second moment minus the squared mean, and the
    dispersion is at most 4.5, half the width of the scale. *)
Theorem dispersion_at_most_half_range :
  forall d : distribution,
    List.length d = 10%nat ->
    Forall (fun x => 0 <= x)%Q d ->
    (np_sum d == 1)%Q ->
    exists (mean : Q) (std : R),
      calculate_mean_score d = Ok mean
      /\ calculate_std_score d = Ok (np_real std)
      /\ (std * std = Q2R (second_moment d - mean * mean))%R
      /\ (std <= 9 / 2)%R.
Proof.
  intros d Hlen Hpos Hsum.
  set (mean := np_sum (zip_with Qmult d ranks)).
  assert (Hmean : calculate_mean_score d = Ok mean).
  { unfold calculate_mean_score. rewrite (np_mul_ranks d Hlen). reflexivity. }
  assert (Hvar0 : (0 <= variance_about mean d)%Q).
  { apply weighted_sum_nonneg; [exact Hpos | apply squares_nonneg]. }
  pose proof (variance_at_most d Hlen Hpos Hsum) as Hvar1. fold mean in Hvar1.
  pose proof (variance_decomposition d Hlen Hsum) as Hdec. fold mean in Hdec.
  exists mean, (sqrt (Q2R (variance_about mean d))).
  split; [exact Hmean|]. split; [|split].
  - rewrite (calculate_std_score_eq d mean Hlen Hmean).
    fold (variance_about mean d). unfold np_sqrt.
    apply Qle_bool_iff in Hvar0. rewrite Hvar0. reflexivity.
  - rewrite sqrt_sqrt.
    + apply Qreals.Qeq_eqR. exact Hdec.
    + apply Qreals.Qle_Rle in Hvar0.
      replace (Q2R 0) with 0%R in Hvar0 by (unfold Q2R; simpl; Lra.lra).
      exact Hvar0.
  - apply Qreals.Qle_Rle in Hvar1.
    replace (Q2R (81 # 4)) with ((9 / 2) * (9 / 2))%R in Hvar1
      by (unfold Q2R; simpl; Lra.lra).
    rewrite <- (sqrt_square (9 / 2)) by Lra.lra.
    apply sqrt_le_1_alt. exact Hvar1.
Qed.

Lemma dispersion_at_most_half_range_witness :
  exists (mean : Q) (std : R),
    calculate_mean_score uniform = Ok mean
    /\ calculate_std_score uniform = Ok (np_real std)
    /\ (std * std = Q2R (second_moment uniform - mean * mean))%R
    /\ (std <= 9 / 2)%R.
Proof.
  apply (dispersion_at_most_half_range uniform).
  - reflexivity.
  - repeat constructor; discriminate.
  - vm_compute; reflexivity.
Defined.

(** ** Strings: suffixes *)


Lemma drop_prefix_self s : drop_prefix s s = Some EmptyString.
Proof.
  induction s as [|c s IH]; simpl; [reflexivity|].
  rewrite Ascii.eqb_refl. exact IH.
Qed.

Lemma drop_prefix_exact suffix s :
  drop_prefix suffix s = Some EmptyString -> s = suffix.
Proof.
  revert s. induction suffix as [|a suffix IH]; intros s; simpl.
  - intros [= ->]; reflexivity.
  - destruct s as [|b s]; [discriminate|].
    destruct (Ascii.eqb_spec a b) as [->|]; [|discriminate].
    intro H. rewrite (IH s H). reflexivity.
Qed.

Lemma ends_with_app suffix p : ends_with suffix (p ++ suffix)%string = true.
Proof.
  induction p as [|c p IH]; simpl.
  - destruct suffix as [|a suffix]; simpl; [reflexivity|].
    rewrite Ascii.eqb_refl, drop_prefix_self. reflexivity.
  - rewrite IH.
    destruct (drop_prefix suffix (String c (p ++ suffix))) as [[|? ?]|]; reflexivity.
Qed.

Lemma ends_with_inv suffix s :
  ends_with suffix s = true -> exists p, s = (p ++ suffix)%string.
Proof.
  induction s as [|c s IH].
  - simpl. destruct (drop_prefix suffix EmptyString) as [[|? ?]|] eqn:E;
      try discriminate.
    intros _. apply drop_prefix_exact in E. exists EmptyString. exact E.
  - intro H.
    destruct (drop_prefix suffix (String c s)) as [[|? ?]|] eqn:E.
    + apply drop_prefix_exact in E. exists EmptyString. exact E.
    + simpl in H. rewrite E in H. destruct (IH H) as [p ->].
      exists (String c p). reflexivity.
    + simpl in H. rewrite E in H. destruct (IH H) as [p ->].
      exists (String c p). reflexivity.
Qed.

Lemma last_char_app a b :
  b <> EmptyString -> last_char (a ++ b)%string = last_char b.
Proof.
  intro Hb. induction a as [|c a IH]; simpl; [reflexivity|].
  rewrite IH. destruct b as [|x b]; [congruence|].
  simpl. destruct (last_char b); reflexivity.
Qed.

(** ** The result store: what reads back *)

Lemma glob_json_filter dir :
  glob_json dir = filter (fun f => json_name (fst f)) dir.
Proof. reflexivity. Qed.

Lemma hidden_app base rest c :
  hidden (base ++ String c rest)%string
  = match base with EmptyString => Ascii.eqb c DOT | _ => hidden base end.
Proof. destruct base; reflexivity. Qed.

Lemma json_name_suffixed p :
  hidden (p ++ ".json")%string = false -> json_name (p ++ ".json")%string = true.
Proof.
  destruct p as [|c p]; [discriminate|].
  intro H. simpl in H. unfold json_name.
  change (String c p ++ ".json")%string with (String c (p ++ ".json"))%string.
  cbv beta iota. rewrite H.
  change (String c (p ++ ".json"))%string with (String c p ++ ".json")%string.
  rewrite ends_with_app. reflexivity.
Qed.

Lemma json_name_prediction image_path model_type :
  hidden (splitext_root (basename image_path)) = false ->
  json_name (prediction_name image_path model_type) = true.
Proof.
  intro Hh. unfold prediction_name.
  set (base := splitext_root (basename image_path)) in *.
  replace (base ++ "_" ++ model_type ++ "_results.json")%string
    with ((base ++ "_" ++ model_type ++ "_results") ++ ".json")%string.
  - apply json_name_suffixed. rewrite str_app_assoc. simpl.
    rewrite hidden_app. destruct base; [reflexivity | exact Hh].
  - rewrite !str_app_assoc. reflexivity.
Qed.

(** X10.  A prediction written by [predict_script] into an empty directory
    reads back: with no filter, or with the filter naming its variant, the
    loader returns one entry, the image's file name holding the distribution
    under the variant; with the filter naming another variant it returns the
    empty table.  The file must not be hidden (a base name starting with a
    dot is skipped by the [*.json] listing). *)
Theorem prediction_reads_back :
  forall (image_path model_type wanted : string) (scores : distribution),
    List.length scores = 10%nat ->
    hidden (splitext_root (basename image_path)) = false ->
    exists dir,
      save_prediction image_path model_type scores [] = Ok dir
      /\ (wanted = "both" \/ wanted = model_type ->
          load_results dir wanted
          = Ok [(JStr (basename image_path), [(JStr model_type, to_json scores)])])
      /\ (wanted <> "both" -> wanted <> model_type ->
          load_results dir wanted = Ok []).
Proof.
  intros image_path model_type wanted scores Hlen Hh.
  unfold save_prediction. unfold calculate_mean_score.
  rewrite (np_mul_ranks scores Hlen). cbv beta iota delta [bind].
  eexists. split; [reflexivity|].
  fold (prediction_name image_path model_type).
  unfold load_results, write_file. simpl dict_set.
  rewrite glob_json_filter. simpl List.filter. 
  rewrite (json_name_prediction image_path model_type Hh).
  unfold foldM, load_file. cbv beta iota delta [bind snd json_load].
  split.
  - intros Hf.
    assert (Hskip : (if String.eqb wanted "both" then Ok false
                     else mt <- subscript
                            (JObj [("image", JStr (basename image_path));
                                   ("model_type", JStr model_type);
                                   ("mean_score", JNum (np_sum (zip_with Qmult scores ranks)));
                                   ("scores", to_json scores)]) "model_type" ;;
                          Ok (negb (py_eqb mt (JStr wanted)))) = Ok false).
    { destruct Hf as [->| ->]; [reflexivity|].
      destruct (String.eqb model_type "both"); [reflexivity|].
      simpl. rewrite String.eqb_refl. reflexivity. }
    cbv beta iota delta [bind] in Hskip. rewrite Hskip.
    simpl. rewrite String.eqb_refl. reflexivity.
  - intros Hnb Hnm.
    apply String.eqb_neq in Hnb. rewrite Hnb. simpl.
    assert (Hne : String.eqb model_type wanted = false)
      by (apply String.eqb_neq; congruence).
    rewrite Hne. reflexivity.
Qed.

Lemma prediction_reads_back_witness :
  exists dir,
    save_prediction "sample_images/photo1.jpg" "aesthetic" uniform [] = Ok dir
    /\ ("aesthetic" = "both" \/ "aesthetic" = "aesthetic" ->
        load_results dir "aesthetic"
        = Ok [(JStr (basename "sample_images/photo1.jpg"),
               [(JStr "aesthetic", to_json uniform)])])
    /\ ("aesthetic" <> "both" -> "aesthetic" <> "aesthetic" ->
        load_results dir "aesthetic" = Ok []).
Proof.
  apply (prediction_reads_back "sample_images/photo1.jpg" "aesthetic" "aesthetic"
           uniform); reflexivity.
Defined.

(** The same prediction under each of the three filters. *)
Example prediction_under_each_filter :
  exists dir,
    save_prediction "sample_images/photo1.jpg" "aesthetic" uniform [] = Ok dir
    /\ load_results dir "both"
       = Ok [(JStr "photo1.jpg", [(JStr "aesthetic", to_json uniform)])]
    /\ load_results dir "aesthetic"
       = Ok [(JStr "photo1.jpg", [(JStr "aesthetic", to_json uniform)])]
    /\ load_results dir "technical" = Ok [].
Proof. eexists. repeat split; vm_compute; reflexivity. Qed.

(** ** Dictionaries under any key equality *)

Section AnyDict.
Context {K V : Type}.
Variable key_eqb : K -> K -> bool.
Implicit Types (d : list (K * V)) (k : K) (v : V).

Lemma dict_set_any_nonempty k v d : dict_set key_eqb k v d <> [].
Proof.
  destruct d as [|[k' v'] d]; simpl; [discriminate|].
  destruct (key_eqb k k'); discriminate.
Qed.

Lemma dict_get_app_absent k d d' :
  dict_get key_eqb k d = None ->
  dict_get key_eqb k (d ++ d') = dict_get key_eqb k d'.
Proof.
  induction d as [|[k' v'] d IH]; simpl; [reflexivity|].
  destruct (key_eqb k k'); [discriminate | exact IH].
Qed.

Lemma dict_set_app_absent k v d d' :
  dict_get key_eqb k d = None ->
  dict_set key_eqb k v (d ++ d') = d ++ dict_set key_eqb k v d'.
Proof.
  induction d as [|[k' v'] d IH]; simpl; [reflexivity|].
  destruct (key_eqb k k'); [discriminate|].
  intro H. rewrite (IH H). reflexivity.
Qed.

Lemma dict_get_any_In k v d :
  dict_get key_eqb k d = Some v -> exists k', In (k', v) d.
Proof.
  induction d as [|[k' v'] d IH]; simpl; [discriminate|].
  destruct (key_eqb k k').
  - intros [= <-]. exists k'. left; reflexivity.
  - intro H. destruct (IH H) as [k1 Hk1]. exists k1. right; exact Hk1.
Qed.

Lemma dict_set_any_In k v k0 v0 d :
  In (k0, v0) (dict_set key_eqb k v d) ->
  (v0 = v /\ (k0 = k \/ exists v', In (k0, v') d)) \/ In (k0, v0) d.
Proof.
  induction d as [|[k' v'] d IH]; simpl.
  - intros [[= <- <-]|[]]. left; split; [reflexivity | left; reflexivity].
  - destruct (key_eqb k k') eqn:E; simpl.
    + intros [[= <- <-]|H].
      * left; split; [reflexivity|]. right. exists v'. left; reflexivity.
      * right; right; exact H.
    + intros [[= <- <-]|H].
      * right; left; reflexivity.
      * destruct (IH H) as [[-> [-> | [v1 Hv1]]]|Hin].
        -- left; split; [reflexivity | left; reflexivity].
        -- left; split; [reflexivity|]. right; exists v1; right; exact Hv1.
        -- right; right; exact Hin.
Qed.

Lemma dict_get_set_any k v d :
  key_eqb k k = true -> dict_get key_eqb k (dict_set key_eqb k v d) = Some v.
Proof.
  intro Hrefl. induction d as [|[k' v'] d IH]; simpl.
  - rewrite Hrefl; reflexivity.
  - destruct (key_eqb k k') eqn:E; simpl; rewrite E; [reflexivity | exact IH].
Qed.
End AnyDict.

Lemma py_eqb_refl j : hashable j = true -> py_eqb j j = true.
Proof.
  destruct j as [| [|] | q | s | items | fields]; simpl; try discriminate;
    intros _; first [reflexivity | apply Qeq_bool_refl | apply String.eqb_refl].
Qed.

Lemma py_eqb_str j s : py_eqb j (JStr s) = true -> j = JStr s.
Proof.
  destruct j as [| [|] | q | s' | items | fields]; simpl; try discriminate.
  intro H. apply String.eqb_eq in H. subst; reflexivity.
Qed.

(** ** One file of the loader *)

Lemma merge_record_absent image variant scores table :
  hashable image = true ->
  dict_get py_eqb image table = None ->
  merge_record image variant scores table = table ++ [(image, [(variant, scores)])].
Proof.
  intros Hh Hnone. unfold merge_record. rewrite Hnone.
  assert (Happ : dict_set py_eqb image (@nil (json * json)) table
                 = table ++ [(image, [])]).
  { rewrite <- (app_nil_r table) at 1.
    rewrite dict_set_app_absent by exact Hnone. reflexivity. }
  rewrite Happ.
  rewrite dict_get_app_absent by exact Hnone. simpl.
  rewrite (py_eqb_refl image Hh). simpl.
  rewrite dict_set_app_absent by exact Hnone. simpl.
  rewrite (py_eqb_refl image Hh). reflexivity.
Qed.

Lemma merge_record_present image variant scores table inner :
  dict_get py_eqb image table = Some inner ->
  merge_record image variant scores table
  = dict_set py_eqb image (dict_set py_eqb variant scores inner) table.
Proof. intro H. unfold merge_record. rewrite H, H. reflexivity. Qed.

Lemma merge_record_In image variant scores table i inner :
  hashable image = true ->
  In (i, inner) (merge_record image variant scores table) ->
  In (i, inner) table
  \/ exists inner0,
       inner = dict_set py_eqb variant scores inner0
       /\ (inner0 = [] \/ exists i0, In (i0, inner0) table)
       /\ (i = image \/ exists inner1, In (i, inner1) table).
Proof.
  intros Hh Hin.
  destruct (dict_get py_eqb image table) as [inner0|] eqn:E.
  - rewrite (merge_record_present _ _ _ _ _ E) in Hin.
    apply dict_set_any_In in Hin. destruct Hin as [[-> Hk]|Hin]; [|left; exact Hin].
    right. exists inner0. split; [reflexivity|]. split; [|exact Hk].
    right. eapply dict_get_any_In; exact E.
  - rewrite (merge_record_absent _ _ _ _ Hh E) in Hin.
    apply in_app_or in Hin. destruct Hin as [Hin|[[= <- <-]|[]]]; [left; exact Hin|].
    right. exists []. split; [reflexivity|]. split; left; reflexivity.
Qed.

Lemma merge_record_lookup image variant scores table :
  hashable image = true -> hashable variant = true ->
  loaded_lookup image variant (merge_record image variant scores table) = Some scores.
Proof.
  intros Hi Hv. unfold loaded_lookup.
  destruct (dict_get py_eqb image table) as [inner0|] eqn:E.
  - rewrite (merge_record_present _ _ _ _ _ E).
    rewrite dict_get_set_any by (apply py_eqb_refl; exact Hi).
    apply dict_get_set_any. apply py_eqb_refl; exact Hv.
  - rewrite (merge_record_absent _ _ _ _ Hi E).
    rewrite dict_get_app_absent by exact E. simpl.
    rewrite (py_eqb_refl image Hi). simpl.
    rewrite (py_eqb_refl variant Hv). reflexivity.
Qed.

(** What one file can do to the table: nothing, or merge one record whose
    variant passes the filter. *)
Lemma load_file_step wanted table f table' :
  load_file wanted table f = Ok table' ->
  table' = table
  \/ exists data image variant scores,
       snd f = Document data
       /\ subscript data "image" = Ok image
       /\ subscript data "model_type" = Ok variant
       /\ subscript data "scores" = Ok scores
       /\ hashable image = true /\ hashable variant = true
       /\ (wanted = "both" \/ variant = JStr wanted)
       /\ table' = merge_record image variant scores table.
Proof.
  unfold load_file.
  destruct (json_load (snd f)) as [data|e] eqn:Hload; simpl; [|discriminate].
  assert (Hdoc : snd f = Document data).
  { destruct (snd f); simpl in Hload; try discriminate. congruence. }
  destruct (String.eqb_spec wanted "both") as [Hboth|Hnb]; simpl.
  - destruct (subscript data "image") as [image|e] eqn:Hi; simpl; [|discriminate].
    destruct (hashable image) eqn:Hhi; simpl; [|discriminate].
    destruct (subscript data "scores") as [scores|e] eqn:Hs; simpl; [|discriminate].
    destruct (subscript data "model_type") as [variant|e] eqn:Hv; simpl; [|discriminate].
    destruct (hashable variant) eqn:Hhv; simpl; [|discriminate].
    intros [= <-]. right. exists data, image, variant, scores.
    repeat split; try assumption; try reflexivity. left; exact Hboth.
  - destruct (subscript data "model_type") as [variant|e] eqn:Hv; simpl; [|discriminate].
    destruct (py_eqb variant (JStr wanted)) eqn:Heq; simpl.
    + destruct (subscript data "image") as [image|e] eqn:Hi; simpl; [|discriminate].
      destruct (hashable image) eqn:Hhi; simpl; [|discriminate].
      destruct (subscript data "scores") as [scores|e] eqn:Hs; simpl; [|discriminate].
      destruct (hashable variant) eqn:Hhv; simpl; [|discriminate].
      intros [= <-]. right. exists data, image, variant, scores.
      repeat split; try assumption; try reflexivity.
      right. apply py_eqb_str; exact Heq.
    + intros [= <-]. left; reflexivity.
Qed.

Lemma load_results_invariant (P : loaded -> Prop) wanted files :
  (forall table f table', P table -> load_file wanted table f = Ok table' -> P table') ->
  forall table table',
    P table -> foldM (load_file wanted) table files = Ok table' -> P table'.
Proof.
  intro Hstep. induction files as [|f files IH]; intros table table' HP; simpl.
  - intros [= <-]; exact HP.
  - destruct (load_file wanted table f) as [table1|e] eqn:E; simpl; [|discriminate].
    apply IH. eapply Hstep; eassumption.
Qed.

(** X11.  With a filter other than "both", every variant key of the table
    the loader returns is the filter string itself: no record of another
    variant gets in. *)
Theorem filtered_load_holds_only_the_variant :
  forall (results_dir : directory) (wanted : string) (table : loaded)
         (image variant scores : json) (inner : list (json * json)),
    wanted <> "both" ->
    load_results results_dir wanted = Ok table ->
    In (image, inner) table ->
    In (variant, scores) inner ->
    variant = JStr wanted.
Proof.
  intros results_dir wanted table image variant scores inner Hnb Hload.
  revert image variant scores inner.
  unfold load_results in Hload.
  apply (load_results_invariant
           (fun table => forall image variant scores inner,
                In (image, inner) table -> In (variant, scores) inner ->
                variant = JStr wanted)
           wanted (glob_json results_dir)) with (table := []) (table' := table);
    [| intros ? ? ? ? [] | exact Hload].
  intros table0 f table1 Hinv Hstep image variant scores inner Hin Hv.
  apply load_file_step in Hstep.
  destruct Hstep as [-> | [data [i [v [s [_ [_ [_ [_ [Hhi [_ [Hw ->]]]]]]]]]]]];
    [eapply Hinv; eassumption|].
  destruct Hw as [Hw| ->]; [contradiction|].
  apply (merge_record_In _ _ _ _ _ _ Hhi) in Hin.
  destruct Hin as [Hin|[inner0 [-> [Hinner0 _]]]]; [eapply Hinv; eassumption|].
  apply dict_set_any_In in Hv.
  destruct Hv as [[_ [-> | [s' Hs']]]|Hv].
  - reflexivity.
  - destruct Hinner0 as [-> | [i0 Hi0]]; [destruct Hs' | eapply Hinv; eassumption].
  - destruct Hinner0 as [-> | [i0 Hi0]]; [destruct Hv | eapply Hinv; eassumption].
Qed.

Lemma filtered_load_holds_only_the_variant_witness :
  JStr "aesthetic" = JStr "aesthetic".
Proof.
  apply (filtered_load_holds_only_the_variant
           [("photo1_aesthetic_results.json", Document flat_document);
            ("photo1_technical_results.json",
             Document (flat_document_of "photo1.jpg" "technical" 5.5 (to_json peaked)))]
           "aesthetic"
           [(JStr "photo1.jpg", [(JStr "aesthetic", to_json uniform)])]
           (JStr "photo1.jpg") (JStr "aesthetic") (to_json uniform)
           [(JStr "aesthetic", to_json uniform)]).
  - discriminate.
  - vm_compute; reflexivity.
  - left; reflexivity.
  - left; reflexivity.
Defined.

(** X12.  Every entry of the table the loader returns has at least one
    variant, and its image key and variant keys are hashable values (never a
    list or an object). *)
Theorem loaded_entries_nonempty :
  forall (results_dir : directory) (wanted : string) (table : loaded)
         (image : json) (inner : list (json * json)),
    load_results results_dir wanted = Ok table ->
    In (image, inner) table ->
    inner <> []
    /\ hashable image = true
    /\ Forall (fun entry => hashable (fst entry) = true) inner.
Proof.
  intros results_dir wanted table image inner Hload.
  revert image inner. unfold load_results in Hload.
  apply (load_results_invariant
           (fun table => forall image inner,
                In (image, inner) table ->
                inner <> [] /\ hashable image = true
                /\ Forall (fun entry => hashable (fst entry) = true) inner)
           wanted (glob_json results_dir)) with (table := []) (table' := table);
    [| intros ? ? [] | exact Hload].
  intros table0 f table1 Hinv Hstep image inner Hin.
  apply load_file_step in Hstep.
  destruct Hstep as [-> | [data [i [v [s [_ [_ [_ [_ [Hhi [Hhv [_ ->]]]]]]]]]]]];
    [apply Hinv; exact Hin|].
  apply (merge_record_In _ _ _ _ _ _ Hhi) in Hin.
  destruct Hin as [Hin|[inner0 [-> [Hinner0 Hkey]]]]; [apply Hinv; exact Hin|].
  split; [apply dict_set_any_nonempty|]. split.
  - destruct Hkey as [-> | [inner1 Hin1]]; [exact Hhi | apply (Hinv _ _ Hin1)].
  - apply Forall_forall. intros [v0 s0] Hv0. simpl.
    apply dict_set_any_In in Hv0.
    assert (Hold : forall s', In (v0, s') inner0 -> hashable v0 = true).
    { intros s' Hs'. destruct Hinner0 as [-> | [i0 Hi0]]; [destruct Hs'|].
      destruct (Hinv _ _ Hi0) as [_ [_ Hall]].
      rewrite Forall_forall in Hall. exact (Hall _ Hs'). }
    destruct Hv0 as [[_ [-> | [s' Hs']]]|Hv0]; [exact Hhv | eauto | eauto].
Qed.

Lemma loaded_entries_nonempty_witness :
  [(JStr "aesthetic", to_json uniform)] <> []
  /\ hashable (JStr "photo1.jpg") = true
  /\ Forall (fun entry => hashable (fst entry) = true)
            [(JStr "aesthetic", to_json uniform)].
Proof.
  apply (loaded_entries_nonempty
           [("photo1_aesthetic_results.json", Document flat_document)] "both"
           [(JStr "photo1.jpg", [(JStr "aesthetic", to_json uniform)])]
           (JStr "photo1.jpg")).
  - vm_compute; reflexivity.
  - left; reflexivity.
Defined.

Lemma load_file_flat wanted table name image variant mean scores :
  wanted = "both" \/ wanted = variant ->
  load_file wanted table
    (name, Document (flat_document_of image variant mean scores))
  = Ok (merge_record (JStr image) (JStr variant) scores table).
Proof.
  intro Hw. unfold load_file, flat_document_of. simpl.
  assert (Hskip : (if String.eqb wanted "both" then Ok false
                   else Ok (negb (String.eqb variant wanted))) = Ok false).
  { destruct Hw as [-> | ->]; [reflexivity|].
    rewrite String.eqb_refl. destruct (String.eqb variant "both"); reflexivity. }
  destruct (String.eqb wanted "both"); simpl.
  - reflexivity.
  - injection Hskip as Hskip. rewrite Hskip. reflexivity.
Qed.

(** X13.  A flattened record whose variant passes the filter and which is
    listed last is always in the table: whatever the files before it put
    under its (image, variant) key, the loader returns its scores there. *)
Theorem last_listed_record_is_loaded :
  forall (results_dir good : directory) (wanted name image variant : string)
         (mean : Q) (scores : json) (table0 : loaded),
    glob_json results_dir
      = good ++ [(name, Document (flat_document_of image variant mean scores))] ->
    wanted = "both" \/ wanted = variant ->
    foldM (load_file wanted) [] good = Ok table0 ->
    exists table,
      load_results results_dir wanted = Ok table
      /\ table = merge_record (JStr image) (JStr variant) scores table0
      /\ loaded_lookup (JStr image) (JStr variant) table = Some scores.
Proof.
  intros results_dir good wanted name image variant mean scores table0
         Hglob Hw Hgood.
  eexists. split; [|split; [reflexivity|]].
  - unfold load_results. rewrite Hglob, foldM_app, Hgood. simpl.
    rewrite (load_file_flat wanted table0 name image variant mean scores Hw).
    reflexivity.
  - apply merge_record_lookup; reflexivity.
Qed.

Lemma last_listed_record_is_loaded_witness :
  exists table,
    load_results
      [("photo1_a.json", Document (flat_document_of "photo1.jpg" "aesthetic" 5.5
                                     (to_json peaked)));
       ("photo1_b.json", Document flat_document)] "both" = Ok table
    /\ table = merge_record (JStr "photo1.jpg") (JStr "aesthetic") (to_json uniform)
                 [(JStr "photo1.jpg", [(JStr "aesthetic", to_json peaked)])]
    /\ loaded_lookup (JStr "photo1.jpg") (JStr "aesthetic") table
       = Some (to_json uniform).
Proof.
  apply (last_listed_record_is_loaded
           [("photo1_a.json", Document (flat_document_of "photo1.jpg" "aesthetic" 5.5
                                          (to_json peaked)));
            ("photo1_b.json", Document flat_document)]
           [("photo1_a.json", Document (flat_document_of "photo1.jpg" "aesthetic" 5.5
                                          (to_json peaked)))]
           "both" "photo1_b.json" "photo1.jpg" "aesthetic" 5.5 (to_json uniform)).
  - vm_compute; reflexivity.
  - left; reflexivity.
  - vm_compute; reflexivity.
Defined.

(** X14.  With a filter other than "both", a document whose [model_type] is
    anything but the filter string is skipped before its other fields are
    looked at: a directory holding only such documents loads to the empty
    table, even when they lack [image] or [scores]. *)
Theorem other_variant_documents_skipped :
  forall (results_dir : directory) (wanted : string),
    wanted <> "both" ->
    Forall (fun f => exists fields variant,
                snd f = Document (JObj fields)
                /\ dict_get String.eqb "model_type" fields = Some variant
                /\ variant <> JStr wanted)
           (glob_json results_dir) ->
    load_results results_dir wanted = Ok [].
Proof.
  intros results_dir wanted Hnb Hall. unfold load_results.
  apply foldM_skip. eapply Forall_impl; [|exact Hall].
  intros f [fields [variant [Hdoc [Hget Hne]]]].
  unfold load_file. rewrite Hdoc. simpl.
  apply String.eqb_neq in Hnb. rewrite Hnb, Hget. simpl.
  destruct (py_eqb variant (JStr wanted)) eqn:E; [|reflexivity].
  apply py_eqb_str in E. contradiction.
Qed.

Lemma other_variant_documents_skipped_witness :
  load_results
    [("photo1_technical_results.json",
      Document (JObj [("model_type", JStr "technical")]))] "aesthetic" = Ok [].
Proof.
  apply other_variant_documents_skipped.
  - discriminate.
  - constructor; [|constructor].
    exists [("model_type", JStr "technical")], (JStr "technical").
    split; [reflexivity | split; [reflexivity | discriminate]].
Defined.

Lemma subscript_error data key e :
  subscript data key = Err e -> e = TypeError \/ e = KeyError key.
Proof.
  destruct data; simpl; try (intros [= <-]; left; reflexivity).
  destruct (dict_get String.eqb key fields); [discriminate|].
  intros [= <-]; right; reflexivity.
Qed.

Lemma load_document_error wanted table name data e :
  load_file wanted table (name, Document data) = Err e ->
  e = TypeError
  \/ e = KeyError "model_type" \/ e = KeyError "image" \/ e = KeyError "scores".
Proof.
  unfold load_file. simpl snd. simpl json_load. cbv beta iota delta [bind].
  pose proof (subscript_error data "image") as Ei.
  pose proof (subscript_error data "scores") as Es.
  pose proof (subscript_error data "model_type") as Ev.
  destruct (subscript data "image") as [image|ei];
    destruct (subscript data "scores") as [scores|es];
    destruct (subscript data "model_type") as [variant|ev];
    destruct (String.eqb wanted "both");
    try destruct (py_eqb variant (JStr wanted));
    try destruct (hashable image); try destruct (hashable variant);
    cbv beta iota delta [negb]; intro H; try discriminate H; injection H as <-;
    first [ solve [auto 6]
          | solve [destruct (Ei _ eq_refl) as [-> | ->]; auto 6]
          | solve [destruct (Es _ eq_refl) as [-> | ->]; auto 6]
          | solve [destruct (Ev _ eq_refl) as [-> | ->]; auto 6] ].
Qed.

(** X15.  On a directory whose [*.json] files all hold JSON documents, the
    loader raises nothing but [TypeError] (a document that is not an object,
    or an unhashable image or variant) and [KeyError] for one of the three
    fields it reads: [model_type], [image], [scores].  The field
    [mean_score] is never read. *)
Theorem load_results_exceptions_on_documents :
  forall (results_dir : directory) (wanted : string) (e : exn),
    Forall (fun f => exists data, snd f = Document data) (glob_json results_dir) ->
    load_results results_dir wanted = Err e ->
    e = TypeError
    \/ e = KeyError "model_type" \/ e = KeyError "image" \/ e = KeyError "scores".
Proof.
  intros results_dir wanted e Hdocs Hload. unfold load_results in Hload.
  destruct (foldM_error _ _ _ _ Hload) as [pre [f [post [table [Heq [_ Hf]]]]]].
  rewrite Heq in Hdocs. apply Forall_app in Hdocs. destruct Hdocs as [_ Hdocs].
  inversion Hdocs as [|? ? [data Hdata] _]; subst.
  destruct f as [name content]. simpl in Hdata. subst content.
  eapply load_document_error; exact Hf.
Qed.

Lemma load_results_exceptions_on_documents_witness :
  KeyError "image" = TypeError
  \/ KeyError "image" = KeyError "model_type"
  \/ KeyError "image" = KeyError "image" \/ KeyError "image" = KeyError "scores".
Proof.
  apply (load_results_exceptions_on_documents
           [("photo1_scores.json", Document nested_document);
            ("photo1_scores.png", Binary)] "both").
  - constructor; [|constructor]. exists nested_document. reflexivity.
  - vm_compute; reflexivity.
Defined.

(** What is not a JSON document raises the exception of [open] or
    [json.load] itself. *)
Example unreadable_files_raise :
  load_results [("a.json", Garbage)] "both" = Err JSONDecodeError
  /\ load_results [("a.json", Binary)] "both" = Err UnicodeDecodeError
  /\ load_results [("a.json", Folder)] "both" = Err IsADirectoryError.
Proof. repeat split; vm_compute; reflexivity. Qed.

Lemma str_app_eqb_prefix (p a b : string) :
  String.eqb (p ++ a) (p ++ b) = String.eqb a b.
Proof.
  induction p as [|c p IH]; simpl; [reflexivity|].
  rewrite Ascii.eqb_refl. exact IH.
Qed.

(** X16.  The two predictions of one image, aesthetic then technical, written
    by [predict_script] into an empty directory, read back as one entry for
    the image holding both distributions; each filter returns the entry with
    its own variant alone. *)
Theorem both_variants_read_back :
  forall (image_path : string) (aes tech : distribution),
    List.length aes = 10%nat ->
    List.length tech = 10%nat ->
    hidden (splitext_root (basename image_path)) = false ->
    exists dir1 dir2,
      save_prediction image_path "aesthetic" aes [] = Ok dir1
      /\ save_prediction image_path "technical" tech dir1 = Ok dir2
      /\ load_results dir2 "both"
         = Ok [(JStr (basename image_path),
                [(JStr "aesthetic", to_json aes); (JStr "technical", to_json tech)])]
      /\ load_results dir2 "aesthetic"
         = Ok [(JStr (basename image_path), [(JStr "aesthetic", to_json aes)])]
      /\ load_results dir2 "technical"
         = Ok [(JStr (basename image_path), [(JStr "technical", to_json tech)])].
Proof.
  intros image_path aes tech Ha Ht Hh.
  unfold save_prediction, calculate_mean_score.
  rewrite (np_mul_ranks aes Ha), (np_mul_ranks tech Ht).
  cbv beta iota delta [bind].
  do 2 eexists. split; [reflexivity|]. split; [reflexivity|].
  fold (prediction_name image_path "aesthetic").
  fold (prediction_name image_path "technical").
  fold (flat_document_of (basename image_path) "aesthetic"
          (np_sum (zip_with Qmult aes ranks)) (to_json aes)).
  fold (flat_document_of (basename image_path) "technical"
          (np_sum (zip_with Qmult tech ranks)) (to_json tech)).
  assert (Hnames : String.eqb (prediction_name image_path "technical")
                              (prediction_name image_path "aesthetic") = false).
  { unfold prediction_name. rewrite str_app_eqb_prefix. reflexivity. }
  unfold write_file. simpl dict_set. rewrite Hnames.
  unfold load_results. rewrite glob_json_filter. simpl List.filter.
  rewrite !(json_name_prediction image_path _ Hh).
  assert (Hmerge :
    merge_record (JStr (basename image_path)) (JStr "technical") (to_json tech)
      (merge_record (JStr (basename image_path)) (JStr "aesthetic") (to_json aes) [])
    = [(JStr (basename image_path),
        [(JStr "aesthetic", to_json aes); (JStr "technical", to_json tech)])]).
  { unfold merge_record.
    repeat (first [rewrite String.eqb_refl | progress simpl]). reflexivity. }
  split; [|split].
  - unfold foldM.
    rewrite load_file_flat by (left; reflexivity). cbv beta iota delta [bind].
    rewrite load_file_flat by (left; reflexivity). cbv beta iota delta [bind].
    rewrite Hmerge. reflexivity.
  - unfold foldM.
    rewrite load_file_flat by (right; reflexivity). cbv beta iota delta [bind].
    assert (Hskip : forall table,
               load_file "aesthetic" table
                 (prediction_name image_path "technical",
                  Document (flat_document_of (basename image_path) "technical"
                              (np_sum (zip_with Qmult tech ranks)) (to_json tech)))
               = Ok table) by reflexivity.
    rewrite Hskip. unfold merge_record.
    repeat (first [rewrite String.eqb_refl | progress simpl]). reflexivity.
  - unfold foldM.
    assert (Hskip : forall table,
               load_file "technical" table
                 (prediction_name image_path "aesthetic",
                  Document (flat_document_of (basename image_path) "aesthetic"
                              (np_sum (zip_with Qmult aes ranks)) (to_json aes)))
               = Ok table) by reflexivity.
    rewrite Hskip. cbv beta iota delta [bind].
    rewrite load_file_flat by (right; reflexivity). cbv beta iota delta [bind].
    unfold merge_record.
    repeat (first [rewrite String.eqb_refl | progress simpl]). reflexivity.
Qed.

Lemma both_variants_read_back_witness :
  exists dir1 dir2,
    save_prediction "sample_images/photo1.jpg" "aesthetic" uniform [] = Ok dir1
    /\ save_prediction "sample_images/photo1.jpg" "technical" peaked dir1 = Ok dir2
    /\ load_results dir2 "both"
       = Ok [(JStr (basename "sample_images/photo1.jpg"),
              [(JStr "aesthetic", to_json uniform); (JStr "technical", to_json peaked)])]
    /\ load_results dir2 "aesthetic"
       = Ok [(JStr (basename "sample_images/photo1.jpg"),
              [(JStr "aesthetic", to_json uniform)])]
    /\ load_results dir2 "technical"
       = Ok [(JStr (basename "sample_images/photo1.jpg"),
              [(JStr "technical", to_json peaked)])].
Proof.
  apply (both_variants_read_back "sample_images/photo1.jpg" uniform peaked);
    reflexivity.
Defined.

(** ** The batch writer: which file holds what *)

Lemma str_length_app (a b : string) :
  String.length (a ++ b) = (String.length a + String.length b)%nat.
Proof. induction a as [|c a IH]; simpl; [reflexivity | rewrite IH; reflexivity]. Qed.

Lemma str_app_inj_r (a b s : string) : (a ++ s = b ++ s)%string -> a = b.
Proof.
  revert b. induction a as [|c a IH]; intros b H.
  - destruct b as [|d b]; [reflexivity|].
    apply (f_equal String.length) in H. simpl in H.
    rewrite str_length_app in H. lia.
  - destruct b as [|d b].
    + apply (f_equal String.length) in H. simpl in H.
      rewrite str_length_app in H. lia.
    + simpl in H. injection H as -> H. rewrite (IH b H). reflexivity.
Qed.

Lemma scores_name_inj image1 image2 :
  scores_name image1 = scores_name image2 ->
  splitext_root image1 = splitext_root image2.
Proof. unfold scores_name. apply str_app_inj_r. Qed.

Lemma save_results_app pre post dir :
  save_results (pre ++ post) dir = save_results post (save_results pre dir).
Proof. unfold save_results. apply fold_left_app. Qed.

Lemma save_results_untouched table : forall dir name,
  Forall (fun entry => scores_name (fst entry) <> name) table ->
  dict_get String.eqb name (save_results table dir) = dict_get String.eqb name dir.
Proof.
  unfold save_results.
  induction table as [|[image models] table IH]; intros dir name Hall; simpl.
  - reflexivity.
  - inversion Hall as [|? ? Hhd Htl]; subst. simpl in Hhd.
    rewrite (IH _ _ Htl). unfold write_file.
    apply dict_get_set_other. fold (scores_name image). congruence.
Qed.

(** X17.  After [save_results], the file [<root>_scores.json] holds the
    variants of the last table entry whose image name has that root ([root]
    being the name without its extension), so two images that differ only in
    their extension share one file and the later one wins; a file that is
    the target of no entry keeps the content it had. *)
Theorem save_results_last_entry_wins :
  forall (pre post : score_table) (image : string) (models : variants)
         (output_dir : directory),
    Forall (fun entry => splitext_root (fst entry) <> splitext_root image) post ->
    dict_get String.eqb (scores_name image)
             (save_results (pre ++ (image, models) :: post) output_dir)
    = Some (Document (nested_document_of models))
    /\ (forall name,
           Forall (fun entry => scores_name (fst entry) <> name)
                  (pre ++ (image, models) :: post) ->
           dict_get String.eqb name
                    (save_results (pre ++ (image, models) :: post) output_dir)
           = dict_get String.eqb name output_dir).
Proof.
  intros pre post image models output_dir Hpost. split.
  - rewrite save_results_app.
    change ((image, models) :: post) with ([(image, models)] ++ post).
    rewrite save_results_app, save_results_untouched.
    + unfold save_results; simpl. unfold write_file.
      apply dict_get_set_same.
    + eapply Forall_impl; [|exact Hpost].
      intros entry Hne Heq. apply Hne. apply scores_name_inj. exact Heq.
  - intros name Hall. apply save_results_untouched. exact Hall.
Qed.

Lemma save_results_last_entry_wins_witness :
  dict_get String.eqb (scores_name "photo1.png")
           (save_results ([("photo1.jpg", [("aesthetic", uniform)])]
                          ++ ("photo1.png", [("aesthetic", peaked)])
                          :: [("photo2.jpg", [("aesthetic", uniform)])]) [])
  = Some (Document (nested_document_of [("aesthetic", peaked)]))
  /\ (forall name,
         Forall (fun entry => scores_name (fst entry) <> name)
                ([("photo1.jpg", [("aesthetic", uniform)])]
                 ++ ("photo1.png", [("aesthetic", peaked)])
                 :: [("photo2.jpg", [("aesthetic", uniform)])]) ->
         dict_get String.eqb name
                  (save_results ([("photo1.jpg", [("aesthetic", uniform)])]
                                 ++ ("photo1.png", [("aesthetic", peaked)])
                                 :: [("photo2.jpg", [("aesthetic", uniform)])]) [])
         = dict_get String.eqb name []).
Proof.
  apply (save_results_last_entry_wins
           [("photo1.jpg", [("aesthetic", uniform)])]
           [("photo2.jpg", [("aesthetic", uniform)])]
           "photo1.png" [("aesthetic", peaked)] []).
  constructor; [vm_compute; discriminate | constructor].
Defined.

(** ** Figures and records share a directory *)

Lemma json_name_report image_path : json_name (report_name image_path) = false.
Proof.
  unfold json_name.
  destruct (report_name image_path) as [|c s] eqn:E; [reflexivity|].
  destruct (ends_with ".json" (String c s)) eqn:Hends; [|apply andb_false_r].
  exfalso. apply ends_with_inv in Hends. destruct Hends as [p Hp].
  rewrite <- E in Hp. unfold report_name in Hp.
  apply (f_equal last_char) in Hp.
  rewrite !last_char_app in Hp by discriminate.
  discriminate Hp.
Qed.

Lemma filter_dict_set {V : Type} (p : string -> bool) name (content : V)
    (dir : list (string * V)) :
  p name = false ->
  filter (fun f => p (fst f)) (dict_set String.eqb name content dir)
  = filter (fun f => p (fst f)) dir.
Proof.
  intro Hn. induction dir as [|[k v] dir IH]; simpl.
  - rewrite Hn. reflexivity.
  - destruct (String.eqb_spec name k) as [<-|Hne]; simpl.
    + rewrite Hn. reflexivity.
    + rewrite IH. reflexivity.
Qed.

Lemma glob_json_write name content dir :
  json_name name = false ->
  glob_json (write_file name content dir) = glob_json dir.
Proof.
  intro Hn. rewrite (glob_json_filter dir).
  rewrite (glob_json_filter (write_file name content dir)). unfold write_file.
  apply (filter_dict_set json_name). exact Hn.
Qed.

(** X18.  The figure [visualize_image] saves into the results directory is
    never taken for a record: its name does not end in [.json], so what the
    loader returns, and whether [check_results] finds result files, are the
    same before and after rendering. *)
Theorem rendering_leaves_records_alone :
  forall (image_path wanted : string) (aes tech : option distribution)
         (results_dir after : directory),
    visualize_image image_path aes tech results_dir = Ok after ->
    load_results after wanted = load_results results_dir wanted
    /\ check_results (Some after) = check_results (Some results_dir).
Proof.
  intros image_path wanted aes tech results_dir after Hviz.
  unfold visualize_image in Hviz.
  destruct (draw_figure image_path aes tech) as [fig|e]; simpl in Hviz; [|discriminate].
  injection Hviz as <-. fold (report_name image_path).
  unfold load_results, check_results.
  rewrite (glob_json_write _ _ _ (json_name_report image_path)).
  split; reflexivity.
Qed.

Lemma rendering_leaves_records_alone_witness :
  load_results
    [("photo1_aesthetic_results.json", Document flat_document);
     ("photo1_scores.png", Image blank_figure)] "both"
  = load_results [("photo1_aesthetic_results.json", Document flat_document)] "both"
  /\ check_results
       (Some [("photo1_aesthetic_results.json", Document flat_document);
              ("photo1_scores.png", Image blank_figure)])
     = check_results
         (Some [("photo1_aesthetic_results.json", Document flat_document)]).
Proof.
  apply (rendering_leaves_records_alone "sample_images/photo1.jpg" "both" None None).
  vm_compute; reflexivity.
Defined.

(** ** When the renderer raises *)

Lemma calculate_mean_score_defined (d : distribution) :
  ((exists mean, calculate_mean_score d = Ok mean)
   <-> (List.length d = 10%nat \/ List.length d = 1%nat))
  /\ (forall e, calculate_mean_score d = Err e -> e = ValueError).
Proof.
  unfold calculate_mean_score, np_mul.
  destruct (Nat.eqb (List.length d) (List.length ranks)) eqn:Elen.
  - apply Nat.eqb_eq in Elen. simpl in Elen. split.
    + split; [intros _; left; exact Elen | intros _; eexists; reflexivity].
    + discriminate.
  - apply Nat.eqb_neq in Elen. simpl in Elen.
    destruct d as [|x [|y d']]; simpl.
    + split.
      * split; [intros [m H]; discriminate H | intros [H|H]; discriminate H].
      * intros e [= <-]; reflexivity.
    + split.
      * split; [intros _; right; reflexivity | intros _; eexists; reflexivity].
      * discriminate.
    + split.
      * split; [intros [m H]; discriminate H|].
        intros [H|H]; [exfalso; apply Elen; exact H | discriminate H].
      * intros e [= <-]; reflexivity.
Qed.

Lemma plot_score_distribution_defined (d : distribution) (title color : string) :
  ((exists r, plot_score_distribution d title color = Ok r)
   <-> (List.length d = 10%nat \/ List.length d = 1%nat))
  /\ (forall e, plot_score_distribution d title color = Err e -> e = ValueError).
Proof.
  destruct (calculate_mean_score_defined d) as [Hiff Herr].
  unfold plot_score_distribution.
  destruct (calculate_mean_score d) as [mean|e] eqn:Hmean; simpl.
  - assert (Hlen : List.length d = 10%nat \/ List.length d = 1%nat)
      by (apply Hiff; eexists; reflexivity).
    assert (Hstd : exists std, calculate_std_score d = Ok std).
    { destruct Hlen as [Hlen|Hlen].
      - rewrite (calculate_std_score_eq d mean Hlen Hmean). eexists; reflexivity.
      - destruct d as [|x [|? ?]]; try discriminate Hlen.
        unfold calculate_std_score. rewrite Hmean. eexists; reflexivity. }
    destruct Hstd as [std ->]. simpl. split.
    + split; [intros _; exact Hlen | intros _; eexists; reflexivity].
    + discriminate.
  - split.
    + split; [intros [r Hr]; discriminate Hr|].
      intro Hlen. apply Hiff in Hlen. destruct Hlen as [m Hm]. discriminate Hm.
    + intros e' [= <-]. apply Herr. reflexivity.
Qed.

Lemma draw_figure_defined image_path aes tech :
  ((exists fig, draw_figure image_path aes tech = Ok fig)
   <-> Forall (fun d => List.length d = 10%nat \/ List.length d = 1%nat)
              (present aes ++ present tech))
  /\ (forall e, draw_figure image_path aes tech = Err e -> e = ValueError).
Proof.
  unfold draw_figure.
  destruct aes as [a|], tech as [t|]; simpl.
  - destruct (plot_score_distribution_defined a "Aesthetic Scores" "blue") as [Ha Hea].
    destruct (plot_score_distribution_defined t "Technical Scores" "green") as [Ht Het].
    destruct (plot_score_distribution a "Aesthetic Scores" "blue")
      as [[[pa ma] sa]|ea]; simpl.
    + destruct (plot_score_distribution t "Technical Scores" "green")
        as [[[pt mt] st]|et]; simpl.
      * split; [|discriminate]. split; [|intros _; eexists; reflexivity].
        intros _. constructor; [apply Ha; eexists; reflexivity|].
        constructor; [apply Ht; eexists; reflexivity | constructor].
      * split; [|intros e [= <-]; apply Het; reflexivity].
        split; [intros [fig H]; discriminate H|].
        intro Hall. inversion Hall as [|? ? _ Hrest]; subst.
        inversion Hrest as [|? ? Hlt _]; subst.
        apply Ht in Hlt. destruct Hlt as [r Hr]. discriminate Hr.
    + split; [|intros e [= <-]; apply Hea; reflexivity].
      split; [intros [fig H]; discriminate H|].
      intro Hall. inversion Hall as [|? ? Hla _]; subst.
      apply Ha in Hla. destruct Hla as [r Hr]. discriminate Hr.
  - destruct (plot_score_distribution_defined a "Aesthetic Scores" "blue") as [Ha Hea].
    destruct (plot_score_distribution a "Aesthetic Scores" "blue")
      as [[[pa ma] sa]|ea]; simpl.
    + split; [|discriminate]. split; [|intros _; eexists; reflexivity].
      intros _. constructor; [apply Ha; eexists; reflexivity | constructor].
    + split; [|intros e [= <-]; apply Hea; reflexivity].
      split; [intros [fig H]; discriminate H|].
      intro Hall. inversion Hall as [|? ? Hla _]; subst.
      apply Ha in Hla. destruct Hla as [r Hr]. discriminate Hr.
  - destruct (plot_score_distribution_defined t "Technical Scores" "green") as [Ht Het].
    destruct (plot_score_distribution t "Technical Scores" "green")
      as [[[pt mt] st]|et]; simpl.
    + split; [|discriminate]. split; [|intros _; eexists; reflexivity].
      intros _. constructor; [apply Ht; eexists; reflexivity | constructor].
    + split; [|intros e [= <-]; apply Het; reflexivity].
      split; [intros [fig H]; discriminate H|].
      intro Hall. inversion Hall as [|? ? Hlt _]; subst.
      apply Ht in Hlt. destruct Hlt as [r Hr]. discriminate Hr.
  - split; [|discriminate]. split; [intros _; constructor | intros _; eexists; reflexivity].
Qed.

Lemma draw_figure_at_readable open_image image_path aes tech :
  open_image image_path = Ok tt ->
  draw_figure_at open_image image_path aes tech = draw_figure image_path aes tech.
Proof.
  intro H. unfold draw_figure_at. rewrite H.
  destruct aes, tech; reflexivity.
Qed.

(** X19.  With the picture file in view: when neither variant is present the
    picture is not opened and the (empty) figure is saved whatever the path;
    when a variant is present the figure is saved exactly when the picture
    opens and each distribution has ten numbers or, by broadcasting, one.
    Otherwise the exception is the one [Image.open] raises or, the picture
    open, [ValueError]; and on a picture that opens the renderer is
    [visualize_image]. *)
Theorem renderer_raises_on_picture_or_length :
  forall (open_image : string -> result unit) (image_path : string)
         (aes tech : option distribution) (output_dir : directory),
    ((exists after,
         visualize_image_at open_image image_path aes tech output_dir = Ok after)
     <-> ((aes = None /\ tech = None)
          \/ (open_image image_path = Ok tt
              /\ Forall (fun d => List.length d = 10%nat \/ List.length d = 1%nat)
                        (present aes ++ present tech))))
    /\ (forall e,
           visualize_image_at open_image image_path aes tech output_dir = Err e ->
           open_image image_path = Err e \/ e = ValueError)
    /\ (open_image image_path = Ok tt ->
        visualize_image_at open_image image_path aes tech output_dir
        = visualize_image image_path aes tech output_dir).
Proof.
  intros open_image image_path aes tech output_dir.
  destruct (draw_figure_defined image_path aes tech) as [Hiff Herr].
  assert (Hnone : aes = None /\ tech = None ->
                  draw_figure_at open_image image_path aes tech
                  = Ok blank_figure).
  { intros [-> ->]. reflexivity. }
  unfold visualize_image_at, visualize_image.
  destruct (open_image image_path) as [[]|eo] eqn:Hopen.
  - rewrite (draw_figure_at_readable _ _ _ _ Hopen).
    destruct (draw_figure image_path aes tech) as [fig|e] eqn:E; simpl.
    + split; [|split; [discriminate | reflexivity]].
      split; [|intros _; eexists; reflexivity].
      intros _. right. split; [reflexivity|]. apply Hiff. eexists; reflexivity.
    + split; [|split; [|reflexivity]].
      * split; [intros [after H]; discriminate H|].
        intros [[-> ->]|[_ Hall]]; [discriminate E|].
        apply Hiff in Hall. destruct Hall as [fig H]. discriminate H.
      * intros e' [= <-]. right. apply Herr. reflexivity.
  - destruct aes as [a|], tech as [t|]; unfold draw_figure_at; rewrite ?Hopen; simpl.
    + split; [|split; [intros e [= <-]; left; reflexivity | discriminate]].
      split; [intros [after H]; discriminate H|].
      intros [[H _]|[H _]]; discriminate H.
    + split; [|split; [intros e [= <-]; left; reflexivity | discriminate]].
      split; [intros [after H]; discriminate H|].
      intros [[H _]|[H _]]; discriminate H.
    + split; [|split; [intros e [= <-]; left; reflexivity | discriminate]].
      split; [intros [after H]; discriminate H|].
      intros [[_ H]|[H _]]; discriminate H.
    + split; [|split; [discriminate | discriminate]].
      split; [intros _; left; split; reflexivity | intros _; eexists; reflexivity].
Qed.

(** A missing picture: [FileNotFoundError] with a variant present, an empty
    figure saved with none. *)
Example missing_picture :
  visualize_image_at only_photo1 "sample_images/gone.jpg" (Some uniform) None []
  = Err FileNotFoundError
  /\ visualize_image_at only_photo1 "sample_images/gone.jpg" None None []
     = Ok [("gone_scores.png", Image blank_figure)].
Proof. split; vm_compute; reflexivity. Qed.

(** ** Nothing recorded is ever removed *)

Lemma parse_line_keeps_key st line st' image model d :
  parse_line st line = Ok st' ->
  lookup image model (results st) = Some d ->
  exists d', lookup image model (results st') = Some d'.
Proof.
  unfold parse_line.
  destruct (model_match line); [intros [= <-] H; exists d; exact H|].
  destruct (image_match line); [intros [= <-] H; exists d; exact H|].
  destruct (score_match line) as [score_str|]; [|intros [= <-] H; exists d; exact H].
  destruct (truthy (current_image st) && truthy (current_model st));
    [|intros [= <-] H; exists d; exact H].
  destruct (parse_scores score_str) as [scores|e]; simpl; [|discriminate].
  intros [= <-] H; simpl.
  destruct (String.eqb_spec image (unwrap (current_image st))) as [->|Hi].
  - destruct (String.eqb_spec model (unwrap (current_model st))) as [->|Hm].
    + exists scores. apply lookup_record_same.
    + exists d. rewrite lookup_record_other by congruence. exact H.
  - exists d. rewrite lookup_record_other by congruence. exact H.
Qed.

(** X20.  The parser never removes a record: a key filled after some prefix
    of the lines is still filled (perhaps with a later distribution) in the
    table of any longer text that parses. *)
Theorem recorded_keys_persist :
  forall (pre post : list string) (st1 st2 : parser_state)
         (image model : string) (d : distribution),
    parse_lines pre = Ok st1 ->
    parse_lines (pre ++ post) = Ok st2 ->
    lookup image model (results st1) = Some d ->
    exists d', lookup image model (results st2) = Some d'.
Proof.
  intros pre post st1 st2 image model d Hpre Hall.
  unfold parse_lines in *. rewrite foldM_app, Hpre in Hall. simpl in Hall.
  clear Hpre. revert st1 d Hall.
  induction post as [|l post IH]; intros st1 d Hall Hlook; simpl in Hall.
  - injection Hall as <-. exists d; exact Hlook.
  - destruct (parse_line st1 l) as [st|e] eqn:E; simpl in Hall; [|discriminate].
    destruct (parse_line_keeps_key _ _ _ _ _ _ E Hlook) as [d1 Hd1].
    exact (IH st d1 Hall Hd1).
Qed.

Lemma recorded_keys_persist_witness :
  exists d',
    lookup "photo1.jpg" "aesthetic"
      (results (mk_state [("photo1.jpg", [("aesthetic", peaked)]);
                          ("photo2.jpg", [("aesthetic", uniform)])]
                         (Some "photo2.jpg") (Some "aesthetic")))
    = Some d'.
Proof.
  apply (recorded_keys_persist
           [header_aesthetic; announce_photo1; uniform_line]
           [peaked_line; announce_photo2; uniform_line]
           (mk_state [("photo1.jpg", [("aesthetic", uniform)])]
                     (Some "photo1.jpg") (Some "aesthetic"))
           (mk_state [("photo1.jpg", [("aesthetic", peaked)]);
                      ("photo2.jpg", [("aesthetic", uniform)])]
                     (Some "photo2.jpg") (Some "aesthetic"))
           "photo1.jpg" "aesthetic" uniform).
  - vm_compute; reflexivity.
  - vm_compute; reflexivity.
  - reflexivity.
Defined.

(** ** Result files are seen *)

Lemma dict_set_In_same {V : Type} name (content : V) (dir : list (string * V)) :
  In (name, content) (dict_set String.eqb name content dir).
Proof.
  induction dir as [|[k v] dir IH]; simpl.
  - left; reflexivity.
  - destruct (String.eqb_spec name k) as [<-|Hne].
    + left; reflexivity.
    + right; exact IH.
Qed.

(** X21.  Once [predict_script] has written a prediction whose file is not
    hidden, [check_results] finds result files in the directory, whatever the
    directory held before. *)
Theorem prediction_is_seen_by_check :
  forall (image_path model_type : string) (scores : distribution)
         (output_dir after : directory),
    hidden (splitext_root (basename image_path)) = false ->
    save_prediction image_path model_type scores output_dir = Ok after ->
    check_results (Some after) = true.
Proof.
  intros image_path model_type scores output_dir after Hh Hsave.
  unfold save_prediction in Hsave.
  destruct (calculate_mean_score scores) as [mean|e]; simpl in Hsave; [|discriminate].
  injection Hsave as <-. fold (prediction_name image_path model_type).
  unfold check_results, write_file. rewrite glob_json_filter.
  match goal with
  | |- context [dict_set String.eqb ?n ?c output_dir] =>
      pose proof (dict_set_In_same n c output_dir) as Hin
  end.
  match type of Hin with
  | In ?x ?l =>
      assert (Hf : In x (filter (fun f => json_name (fst f)) l))
  end.
  { apply filter_In. split; [exact Hin|]. simpl.
    apply json_name_prediction. exact Hh. }
  match type of Hf with
  | In _ ?l => destruct l; [destruct Hf | reflexivity]
  end.
Qed.

Lemma prediction_is_seen_by_check_witness :
  check_results
    (Some [("notes.txt", Garbage);
           ("photo1_aesthetic_results.json",
            Document (flat_document_of "photo1.jpg" "aesthetic"
                        (np_sum (zip_with Qmult uniform ranks)) (to_json uniform)))])
  = true.
Proof.
  apply (prediction_is_seen_by_check "sample_images/photo1.jpg" "aesthetic" uniform
           [("notes.txt", Garbage)]).
  - reflexivity.
  - reflexivity.
Defined.
